(** * Verification of [src/assets/icons/create_icons.py]

    The script draws a speaker icon at four fixed sizes with PIL and saves
    each as [icon-{size}.png]; when the import of PIL raises [ImportError]
    it writes one-line text placeholders under the same names.

    The embedding is shallow: Python integers are [Z] ([//] is [Z.div],
    both round towards minus infinity), strings are [string], the working
    directory is a finite map from file names to files, and the script's
    statements are computations in a small state-and-exception monad.
    PIL and the operating system are outside the script; every call into
    them is answered by an oracle that says whether the call raises. *)

From Stdlib Require Import ZArith List String Ascii Lia Bool.
From stdpp Require Import gmap strings pretty.
Import ListNotations.
Open Scope Z_scope.

(** ** Data *)

(** A colour is the 4-tuple [(r, g, b, a)] the script passes to PIL; a box is
    the 4-element list [[x0, y0, x1, y1]]. *)
Definition Color : Type := Z * Z * Z * Z.
Definition Box : Type := Z * Z * Z * Z.

(** The two [ImageDraw] primitives the script calls, with the arguments it
    passes. *)
Inductive DrawCall : Type :=
| rectangle (xy : Box) (fill outline : Color)
| arc (xy : Box) (start stop : Z) (fill : Color) (width : Z).

(** An in-memory image: the arguments of [Image.new] and the drawing calls
    applied to it so far, oldest first. Rasterisation and PNG encoding are
    PIL's and are functions of this value. *)
Record Image : Type := mkImage {
  mode : string;
  dims : Z * Z;
  color : Color;
  drawn : list DrawCall
}.

(** What a file of the working directory holds: an image written by
    [img.save], or text written through [open(name, 'w')]. *)
Inductive File : Type :=
| PngFile (img : Image)
| TextFile (content : string).

(** The exception classes that matter to the handler. [ModuleNotFoundError]
    is the subclass of [ImportError] raised for a missing package. *)
Inductive exn : Type :=
| ImportError
| ModuleNotFoundError
| OSError
| PermissionError
| ValueError
| MemoryError
| KeyboardInterrupt.

(** [except ImportError] matches the class and its subclasses. *)
Definition isinstance_ImportError (e : exn) : bool :=
  match e with
  | ImportError | ModuleNotFoundError => true
  | _ => false
  end.

(** The calls that leave the script. *)
Inductive Call : Type :=
| import_PIL
| Image_new (size : Z)
| ImageDraw_Draw (size : Z)
| draw_rectangle (size : Z)
| draw_arc (size : Z) (i : Z)
| img_save (name : string)
| print (line : string)
| open_w (name : string)
| f_write (name : string).

(** The environment: for each call, the exception it raises, if any. *)
Definition World : Type := Call -> option exn.

(** Process state: working directory, standard output, and (as a history
    variable) the calls made so far, oldest first. *)
Record State : Type := mkState {
  fs : gmap string File;
  stdout : string;
  history : list Call
}.

Inductive Outcome (A : Type) : Type :=
| Return (a : A)
| Raise (e : exn).
Arguments Return {A} a.
Arguments Raise {A} e.

(** ** The monad of statements *)

Definition M (A : Type) : Type := State -> Outcome A * State.

Definition ret {A} (a : A) : M A := fun s => (Return a, s).

Definition bind {A B} (m : M A) (k : A -> M B) : M B :=
  fun s =>
    match m s with
    | (Return a, s') => k a s'
    | (Raise e, s') => (Raise e, s')
    end.

Notation "'let*' x ':=' m 'in' k" := (bind m (fun x => k))
  (at level 10, x name, m at level 100, k at level 200).

(** [for x in xs: body x] *)
Fixpoint for_each {A} (xs : list A) (body : A -> M unit) : M unit :=
  match xs with
  | [] => ret tt
  | x :: rest => let* _ := body x in for_each rest body
  end.

(** [for x in xs: acc = body acc x], for a loop that updates a local. *)
Fixpoint for_fold {A B} (xs : list A) (body : B -> A -> M B) (acc : B) : M B :=
  match xs with
  | [] => ret acc
  | x :: rest => let* acc' := body acc x in for_fold rest body acc'
  end.

(** [try: body except <class>: handler] *)
Definition try_except (body : M unit) (catches : exn -> bool)
    (handler : M unit) : M unit :=
  fun s =>
    match body s with
    | (Return a, s') => (Return a, s')
    | (Raise e, s') => if catches e then handler s' else (Raise e, s')
    end.

Definition record_call (c : Call) (s : State) : State :=
  mkState (fs s) (stdout s) (history s ++ [c]).

Definition set_file (name : string) (f : File) (s : State) : State :=
  mkState (<[name := f]> (fs s)) (stdout s) (history s).

Definition nl : string := String (ascii_of_nat 10) EmptyString.

Definition emit (line : string) (s : State) : State :=
  mkState (fs s) (stdout s +:+ line +:+ nl) (history s).

(** [f.write(data)] on a file opened for writing appends to what the file
    holds since it was opened. *)
Definition append_file (name data : string) (s : State) : State :=
  match fs s !! name with
  | Some (TextFile old) => set_file name (TextFile (old +:+ data)) s
  | _ => set_file name (TextFile data) s
  end.

(** [range(n)] *)
Definition range (n : nat) : list Z := map Z.of_nat (seq 0 n).

(** [f'icon-{size}.png'] *)
Definition icon_name (size : Z) : string :=
  "icon-" +:+ pretty size +:+ ".png".

(** ** Geometry: the locals of the rendering loop, as functions of [size] *)

Definition margin (size : Z) : Z := Z.max 2 (size / 8).
Definition box_width (size : Z) : Z := size / 3.
Definition box_height (size : Z) : Z := size / 2.
Definition box_x (size : Z) : Z := margin size.
Definition box_y (size : Z) : Z := (size - box_height size) / 2.
Definition wave_x (size : Z) : Z := box_x size + box_width size + margin size.
Definition center_y (size : Z) : Z := size / 2.
Definition radius (size i : Z) : Z := (i + 1) * (size / 8).

Definition sizes : list Z := [16; 32; 48; 128].

Definition fallback_notice : string :=
  "PIL not available, creating simple text files as placeholders".

(** ** The script *)

Section Script.
Variable w : World.

(** A call into the environment: it is recorded, then either raises what
    the oracle says or takes effect. *)
Definition perform (c : Call) (effect : State -> State) : M unit :=
  fun s =>
    let s1 := record_call c s in
    match w c with
    | Some e => (Raise e, s1)
    | None => (Return tt, effect s1)
    end.

Definition py_print (line : string) : M unit := perform (print line) (emit line).

Definition new_image (size : Z) : M Image :=
  let* _ := perform (Image_new size) id in
  ret (mkImage "RGBA" (size, size) (0, 0, 0, 0) []).

Definition new_draw (size : Z) : M unit := perform (ImageDraw_Draw size) id.

Definition do_rectangle (size : Z) (img : Image) (xy : Box)
    (fill outline : Color) : M Image :=
  let* _ := perform (draw_rectangle size) id in
  ret (mkImage (mode img) (dims img) (color img)
         (drawn img ++ [rectangle xy fill outline])).

Definition do_arc (size i : Z) (img : Image) (xy : Box) (start stop : Z)
    (fill : Color) (width : Z) : M Image :=
  let* _ := perform (draw_arc size i) id in
  ret (mkImage (mode img) (dims img) (color img)
         (drawn img ++ [arc xy start stop fill width])).

Definition save (img : Image) (name : string) : M unit :=
  perform (img_save name) (set_file name (PngFile img)).

(** Lines 35-39: one iteration of [for i in range(3)]. *)
Definition sound_wave (size : Z) (img : Image) (i : Z) : M Image :=
  let radius := (i + 1) * (size / 8) in
  if wave_x size + radius <? size - margin size then
    do_arc size i img
      (wave_x size - radius, center_y size - radius,
       wave_x size + radius, center_y size + radius)
      (-30) 30 (64, 128, 255, 255) (Z.max 1 (size / 32))
  else ret img.

(** Lines 13-42: one iteration of [for size in sizes]. *)
Definition render (size : Z) : M unit :=
  let* img := new_image size in
  let* _ := new_draw size in
  let* img := do_rectangle size img
           (box_x size, box_y size,
            box_x size + box_width size, box_y size + box_height size)
           (64, 128, 255, 255) (32, 64, 128, 255) in
  let* img := for_fold (range 3) (sound_wave size) img in
  let* _ := save img (icon_name size) in
  py_print ("Created icon-" +:+ pretty size +:+ ".png").

(** Lines 47-48: [with open(name, 'w') as f: f.write(...)]. Opening for
    writing creates or truncates the file. *)
Definition placeholder (size : Z) : M unit :=
  let* _ := perform (open_w (icon_name size)) (set_file (icon_name size) (TextFile "")) in
  perform (f_write (icon_name size))
    (append_file (icon_name size)
       ("# Placeholder icon " +:+ pretty size +:+ "x" +:+ pretty size +:+ nl)).

(** Lines 7-42, the body of [try]. *)
Definition try_block : M unit :=
  let* _ := perform import_PIL id in
  for_each sizes render.

(** Lines 45-48, the body of [except ImportError]. *)
Definition except_block : M unit :=
  let* _ := py_print fallback_notice in
  for_each [16; 32; 48; 128] placeholder.

Definition main : M unit :=
  try_except try_block isinstance_ImportError except_block.
End Script.

(** A process starts with nothing printed and no call made; the working
    directory may hold anything. *)
Definition start (dir : gmap string File) : State := mkState dir "" [].

Definition run (w : World) (dir : gmap string File) : Outcome unit * State :=
  main w (start dir).

(** ** Environments *)

(** Every call succeeds: PIL is installed and the directory is writable. *)
Definition all_ok : World := fun _ => None.

(** PIL is not installed; everything else works. *)
Definition no_PIL : World :=
  fun c => match c with import_PIL => Some ModuleNotFoundError | _ => None end.

(** The rendering path: no call raises. *)
Definition rendering (w : World) : Prop := forall c, w c = None.

(** The placeholder path: the import raises an [ImportError] and no other
    call raises. *)
Definition capability_unavailable (w : World) : Prop :=
  (exists e, w import_PIL = Some e /\ isinstance_ImportError e = true) /\
  forall c, c <> import_PIL -> w c = None.

(** A rendering call raises [ImportError] after the first icon is complete:
    [img.save] for size 32 fails while loading an encoder module. Every other
    call, the import of PIL included, succeeds. *)
Definition save_32_fails_import : World :=
  fun c =>
    match c with
    | img_save name => if String.eqb name "icon-32.png" then Some ImportError else None
    | _ => None
    end.

(** The directory is read-only: creating [icon-16.png] is refused. *)
Definition read_only_dir (import : option exn) : World :=
  fun c =>
    match c with
    | import_PIL => import
    | img_save _ | open_w _ => Some PermissionError
    | _ => None
    end.

(** PIL is not installed and the disk is full: files can be created but
    nothing can be written to them. *)
Definition disk_full : World :=
  fun c =>
    match c with
    | import_PIL => Some ModuleNotFoundError
    | f_write _ => Some OSError
    | _ => None
    end.

(** ** Observations *)

Definition is_rectangle (d : DrawCall) : bool :=
  match d with rectangle _ _ _ => true | arc _ _ _ _ _ => false end.

Definition is_arc (d : DrawCall) : bool :=
  match d with arc _ _ _ _ _ => true | rectangle _ _ _ => false end.

(** Centre and radius of the circle whose bounding box is [xy]. *)
Definition arc_center (xy : Box) : Z * Z :=
  let '(x0, y0, x1, y1) := xy in ((x0 + x1) / 2, (y0 + y1) / 2).

Definition arc_radius (xy : Box) : Z :=
  let '(x0, _, x1, _) := xy in (x1 - x0) / 2.

(** Both corners of [xy] are pixels of the canvas of [img]. *)
Definition inside_canvas (img : Image) (xy : Box) : Prop :=
  let '(x0, y0, x1, y1) := xy in
  let '(width, height) := dims img in
  0 <= x0 /\ x0 <= x1 /\ x1 < width /\ 0 <= y0 /\ y0 <= y1 /\ y1 < height.

(** The file-creating calls of a history, by file name, oldest first. *)
Definition artifacts_created (h : list Call) : list string :=
  flat_map (fun c => match c with
                     | img_save name | open_w name => [name]
                     | _ => []
                     end) h.

(** The calls each block of the script can make. *)
Definition in_try_block (c : Call) : bool :=
  match c with
  | import_PIL | Image_new _ | ImageDraw_Draw _ | draw_rectangle _
  | draw_arc _ _ | img_save _ => true
  | print line => negb (String.eqb line fallback_notice)
  | open_w _ | f_write _ => false
  end.

Definition in_except_block (c : Call) : bool :=
  match c with
  | print line => String.eqb line fallback_notice
  | open_w _ | f_write _ => true
  | _ => false
  end.

Definition is_rendering_call (c : Call) : bool :=
  match c with
  | Image_new _ | ImageDraw_Draw _ | draw_rectangle _ | draw_arc _ _
  | img_save _ => true
  | _ => false
  end.

(** The placeholder path was entered: the fallback notice was printed. *)
Definition placeholder_taken (s : State) : bool :=
  existsb in_except_block (history s).

(** ** Call sequences

    The order of the script's calls does not depend on the environment;
    the environment only decides where the sequence stops. *)

Definition wave_calls (size i : Z) : list Call :=
  if wave_x size + (i + 1) * (size / 8) <? size - margin size
  then [draw_arc size i] else [].

Definition render_calls (size : Z) : list Call :=
  [Image_new size; ImageDraw_Draw size; draw_rectangle size]
  ++ flat_map (wave_calls size) (range 3)
  ++ [img_save (icon_name size); print ("Created icon-" +:+ pretty size +:+ ".png")].

Definition placeholder_calls (size : Z) : list Call :=
  [open_w (icon_name size); f_write (icon_name size)].

Definition try_calls : list Call := import_PIL :: flat_map render_calls sizes.

Definition except_calls : list Call :=
  print fallback_notice :: flat_map placeholder_calls [16; 32; 48; 128].

(** Make the calls of [cs] in order until one raises: the calls made, and
    the exception that stopped them. *)
Fixpoint attempt (w : World) (cs : list Call) : list Call * option exn :=
  match cs with
  | [] => ([], None)
  | c :: rest =>
      match w c with
      | Some e => ([c], Some e)
      | None => let '(made, r) := attempt w rest in (c :: made, r)
      end
  end.

(** Two computations that agree on every state. *)
Definition eqM {A} (m1 m2 : M A) : Prop := forall s, m1 s = m2 s.

(** [m] makes the calls of [cs], stopping at the first that raises;
    otherwise it returns. *)
Definition makes_calls {A} (w : World) (m : M A) (cs : list Call) : Prop :=
  forall s,
    history (snd (m s)) = history s ++ fst (attempt w cs) /\
    match snd (attempt w cs) with
    | Some e => fst (m s) = Raise e
    | None => exists a, fst (m s) = Return a
    end.

(** [m] maintains the state property [P]. *)
Definition preserves {A} (P : State -> Prop) (m : M A) : Prop :=
  forall s, P s -> P (snd (m s)).

(** Files are never removed, and a file whose creation succeeded is there. *)
Definition files_kept (w : World) (dir : gmap string File) (s : State) : Prop :=
  dom dir ⊆ dom (fs s) /\
  forall name,
    (In (img_save name) (history s) /\ w (img_save name) = None) \/
    (In (open_w name) (history s) /\ w (open_w name) = None) ->
    name ∈ dom (fs s).

(** Only the four icon files are touched. *)
Definition others_untouched (dir : gmap string File) (s : State) : Prop :=
  forall name, ~ In name (map icon_name sizes) -> fs s !! name = dir !! name.

(** An effect that leaves the history alone and removes no file. *)
Definition grows (effect : State -> State) : Prop :=
  forall s, history (effect s) = history s /\ dom (fs s) ⊆ dom (fs (effect s)).

(** The effect of a file-creating call puts the file in the directory. *)
Definition creates (c : Call) (effect : State -> State) : Prop :=
  forall name s, c = img_save name \/ c = open_w name -> name ∈ dom (fs (effect s)).

(** The reading of the error-handling rule under which the handler belongs
    to the import alone: the placeholder path is entered only if the import
    of PIL raised an [ImportError], and a call other than the import that
    raises ends the run with its exception. *)
Definition fallback_only_when_import_fails (w : World) (dir : gmap string File) : Prop :=
  let r := fst (run w dir) in
  let s' := snd (run w dir) in
  (placeholder_taken s' = true ->
   exists e, w import_PIL = Some e /\ isinstance_ImportError e = true) /\
  (forall c e, c <> import_PIL -> In c (history s') -> w c = Some e -> r = Raise e).

(** The bounding box a draw call was given. *)
Definition box_of (d : DrawCall) : Box :=
  match d with rectangle xy _ _ => xy | arc xy _ _ _ _ => xy end.

(** What iteration [i] of the sound-wave loop adds to the image: the arc,
    when the guard of line 36 holds. *)
Definition wave_arcs (size i : Z) : list DrawCall :=
  if wave_x size + (i + 1) * (size / 8) <? size - margin size
  then [arc (wave_x size - (i + 1) * (size / 8), center_y size - (i + 1) * (size / 8),
             wave_x size + (i + 1) * (size / 8), center_y size + (i + 1) * (size / 8))
            (-30) 30 (64, 128, 255, 255) (Z.max 1 (size / 32))]
  else [].

(** The file [name] holds [v] (or is absent, for [None]). *)
Definition file_is (name : string) (v : option File) (s : State) : Prop :=
  fs s !! name = v.

(** ** Sanity checks of the model *)

Example icon_names :
  map icon_name sizes = ["icon-16.png"; "icon-32.png"; "icon-48.png"; "icon-128.png"].
Proof. reflexivity. Qed.

Example range_3 : range 3 = [0; 1; 2].
Proof. reflexivity. Qed.

Example floor_division : (-7) / 2 = -4 /\ 16 / 32 = 0 /\ 128 / 3 = 42.
Proof. repeat split; reflexivity. Qed.

Example geometry_16 :
  (margin 16, box_width 16, box_height 16, box_y 16, wave_x 16, center_y 16)
  = (2, 5, 8, 4, 9, 8).
Proof. reflexivity. Qed.

Example try_calls_all_ok : fst (attempt all_ok try_calls) = try_calls.
Proof. reflexivity. Qed.

(** ** The monad: agreement of computations *)

Lemma eqM_bind {A B} (m1 m2 : M A) (k1 k2 : A -> M B) :
  eqM m1 m2 -> (forall a, eqM (k1 a) (k2 a)) -> eqM (bind m1 k1) (bind m2 k2).
Proof.
  intros Hm Hk s. unfold bind. rewrite (Hm s).
  destruct (m2 s) as [[a|e] s']; [apply Hk | reflexivity].
Qed.

Lemma eqM_for_each {A} (xs : list A) (f g : A -> M unit) :
  (forall x, In x xs -> eqM (f x) (g x)) -> eqM (for_each xs f) (for_each xs g).
Proof.
  induction xs as [|x xs IH]; intros H; simpl.
  - intros s; reflexivity.
  - apply eqM_bind; [apply H; left; reflexivity |].
    intros _. apply IH. intros y Hy. apply H. right; exact Hy.
Qed.

Lemma eqM_for_fold {A B} (xs : list A) (f g : B -> A -> M B) :
  (forall b x, In x xs -> eqM (f b x) (g b x)) ->
  forall b, eqM (for_fold xs f b) (for_fold xs g b).
Proof.
  induction xs as [|x xs IH]; intros H b; simpl.
  - intros s; reflexivity.
  - apply eqM_bind; [apply H; left; reflexivity |].
    intros b'. apply IH. intros b0 y Hy. apply H. right; exact Hy.
Qed.

Lemma eqM_perform (w1 w2 : World) c effect :
  w1 c = w2 c -> eqM (perform w1 c effect) (perform w2 c effect).
Proof. intros H s. unfold perform. rewrite H. reflexivity. Qed.

Lemma eqM_try_except (b1 b2 h1 h2 : M unit) catches :
  eqM b1 b2 -> eqM h1 h2 -> eqM (try_except b1 catches h1) (try_except b2 catches h2).
Proof.
  intros Hb Hh s. unfold try_except. rewrite (Hb s).
  destruct (b2 s) as [[a|e] s']; [reflexivity |].
  destruct (catches e); [apply Hh | reflexivity].
Qed.

(** The script consults the environment only at the calls it makes. *)
Lemma eqM_sound_wave (w1 w2 : World) size img i :
  (forall c, c <> import_PIL -> w1 c = w2 c) ->
  eqM (sound_wave w1 size img i) (sound_wave w2 size img i).
Proof.
  intros H. unfold sound_wave, do_arc.
  destruct (_ <? _); [| intros s; reflexivity].
  apply eqM_bind; [apply eqM_perform, H; discriminate |].
  intros _ s; reflexivity.
Qed.

Lemma eqM_render (w1 w2 : World) size :
  (forall c, c <> import_PIL -> w1 c = w2 c) ->
  eqM (render w1 size) (render w2 size).
Proof.
  intros H. unfold render, new_image, new_draw, do_rectangle, save, py_print.
  apply eqM_bind.
  { apply eqM_bind; [apply eqM_perform, H; discriminate | intros _ s; reflexivity]. }
  intros img0. apply eqM_bind; [apply eqM_perform, H; discriminate |].
  intros _. apply eqM_bind.
  { apply eqM_bind; [apply eqM_perform, H; discriminate | intros _ s; reflexivity]. }
  intros img1. apply eqM_bind.
  { apply eqM_for_fold. intros b i _. apply eqM_sound_wave, H. }
  intros img2. apply eqM_bind; [apply eqM_perform, H; discriminate |].
  intros _. apply eqM_perform, H; discriminate.
Qed.

Lemma eqM_placeholder (w1 w2 : World) size :
  (forall c, c <> import_PIL -> w1 c = w2 c) ->
  eqM (placeholder w1 size) (placeholder w2 size).
Proof.
  intros H. unfold placeholder.
  apply eqM_bind; [apply eqM_perform, H; discriminate |].
  intros _. apply eqM_perform, H; discriminate.
Qed.

Lemma eqM_except_block (w1 w2 : World) :
  (forall c, c <> import_PIL -> w1 c = w2 c) ->
  eqM (except_block w1) (except_block w2).
Proof.
  intros H. unfold except_block, py_print.
  apply eqM_bind; [apply eqM_perform, H; discriminate |].
  intros _. apply eqM_for_each. intros size _. apply eqM_placeholder, H.
Qed.

Lemma eqM_main (w1 w2 : World) :
  (forall c, w1 c = w2 c) -> eqM (main w1) (main w2).
Proof.
  intros H. unfold main. apply eqM_try_except.
  - unfold try_block. apply eqM_bind; [apply eqM_perform, H |].
    intros _. apply eqM_for_each. intros size _. apply eqM_render. intros c _; apply H.
  - apply eqM_except_block. intros c _; apply H.
Qed.

(** ** The two paths in closed form *)

Lemma run_rendering_all_ok (w : World) dir :
  rendering w -> run w dir = run all_ok dir.
Proof. intros H. apply eqM_main. intros c. rewrite H. reflexivity. Qed.

Lemma run_import_fails (w : World) dir e :
  w import_PIL = Some e -> isinstance_ImportError e = true ->
  run w dir = except_block w (record_call import_PIL (start dir)).
Proof.
  intros He Hcatch. unfold run, main, try_except, try_block, bind.
  unfold perform at 1. rewrite He, Hcatch. reflexivity.
Qed.

Lemma no_PIL_unavailable : capability_unavailable no_PIL.
Proof.
  split; [exists ModuleNotFoundError; split; reflexivity |].
  intros c Hc. destruct c; [congruence | reflexivity..].
Qed.

Lemma run_unavailable_no_PIL (w : World) dir :
  capability_unavailable w -> run w dir = run no_PIL dir.
Proof.
  intros Hw. pose proof Hw as [(e & He & Hcatch) Hrest].
  rewrite (run_import_fails w dir e He Hcatch).
  rewrite (run_import_fails no_PIL dir ModuleNotFoundError eq_refl eq_refl).
  apply eqM_except_block. intros c Hc.
  rewrite (Hrest c Hc). symmetry. apply no_PIL_unavailable, Hc.
Qed.

Lemma placeholder_succeeds (w : World) size s :
  w (open_w (icon_name size)) = None ->
  w (f_write (icon_name size)) = None ->
  placeholder w size s =
  (Return tt,
   mkState
     (<[icon_name size :=
          TextFile ("# Placeholder icon " +:+ pretty size +:+ "x" +:+ pretty size +:+ nl)]>
        (fs s))
     (stdout s)
     (history s ++ placeholder_calls size)).
Proof.
  intros Hopen Hwrite. unfold placeholder, bind, perform.
  rewrite Hopen, Hwrite. unfold append_file, set_file, record_call. simpl.
  rewrite lookup_insert_eq. simpl. rewrite insert_insert_eq.
  rewrite <- app_assoc. reflexivity.
Qed.

(** What a run leaves behind when no call raises. *)
Lemma run_all_ok_result dir :
  run all_ok dir =
  (Return tt,
   mkState
     (<["icon-128.png" := PngFile (mkImage "RGBA" (128, 128) (0, 0, 0, 0)
          [rectangle (16, 32, 58, 96) (64, 128, 255, 255) (32, 64, 128, 255);
           arc (58, 48, 90, 80) (-30) 30 (64, 128, 255, 255) 4;
           arc (42, 32, 106, 96) (-30) 30 (64, 128, 255, 255) 4])]>
      (<["icon-48.png" := PngFile (mkImage "RGBA" (48, 48) (0, 0, 0, 0)
          [rectangle (6, 12, 22, 36) (64, 128, 255, 255) (32, 64, 128, 255);
           arc (22, 18, 34, 30) (-30) 30 (64, 128, 255, 255) 1;
           arc (16, 12, 40, 36) (-30) 30 (64, 128, 255, 255) 1])]>
      (<["icon-32.png" := PngFile (mkImage "RGBA" (32, 32) (0, 0, 0, 0)
          [rectangle (4, 8, 14, 24) (64, 128, 255, 255) (32, 64, 128, 255);
           arc (14, 12, 22, 20) (-30) 30 (64, 128, 255, 255) 1;
           arc (10, 8, 26, 24) (-30) 30 (64, 128, 255, 255) 1])]>
      (<["icon-16.png" := PngFile (mkImage "RGBA" (16, 16) (0, 0, 0, 0)
          [rectangle (2, 4, 7, 12) (64, 128, 255, 255) (32, 64, 128, 255);
           arc (7, 6, 11, 10) (-30) 30 (64, 128, 255, 255) 1;
           arc (5, 4, 13, 12) (-30) 30 (64, 128, 255, 255) 1])]> dir))))
     ("Created icon-16.png" +:+ nl +:+ "Created icon-32.png" +:+ nl +:+
      "Created icon-48.png" +:+ nl +:+ "Created icon-128.png" +:+ nl)
     [import_PIL;
      Image_new 16; ImageDraw_Draw 16; draw_rectangle 16; draw_arc 16 0;
      draw_arc 16 1; img_save "icon-16.png"; print "Created icon-16.png";
      Image_new 32; ImageDraw_Draw 32; draw_rectangle 32; draw_arc 32 0;
      draw_arc 32 1; img_save "icon-32.png"; print "Created icon-32.png";
      Image_new 48; ImageDraw_Draw 48; draw_rectangle 48; draw_arc 48 0;
      draw_arc 48 1; img_save "icon-48.png"; print "Created icon-48.png";
      Image_new 128; ImageDraw_Draw 128; draw_rectangle 128; draw_arc 128 0;
      draw_arc 128 1; img_save "icon-128.png"; print "Created icon-128.png"]).
Proof. reflexivity. Qed.

(** What a run leaves behind when PIL is missing. *)
Lemma run_no_PIL_result dir :
  run no_PIL dir =
  (Return tt,
   mkState
     (<["icon-128.png" := TextFile ("# Placeholder icon 128x128" +:+ nl)]>
      (<["icon-48.png" := TextFile ("# Placeholder icon 48x48" +:+ nl)]>
      (<["icon-32.png" := TextFile ("# Placeholder icon 32x32" +:+ nl)]>
      (<["icon-16.png" := TextFile ("# Placeholder icon 16x16" +:+ nl)]> dir))))
     ("PIL not available, creating simple text files as placeholders" +:+ nl)
     [import_PIL;
      print "PIL not available, creating simple text files as placeholders";
      open_w "icon-16.png"; f_write "icon-16.png";
      open_w "icon-32.png"; f_write "icon-32.png";
      open_w "icon-48.png"; f_write "icon-48.png";
      open_w "icon-128.png"; f_write "icon-128.png"]).
Proof.
  unfold run, main, try_except, try_block, except_block, py_print.
  unfold bind at 1. unfold perform at 1. simpl history. cbn [no_PIL isinstance_ImportError].
  unfold bind at 1. unfold perform at 1. cbn [no_PIL].
  cbn [for_each]. unfold bind.
  rewrite !placeholder_succeeds by reflexivity.
  reflexivity.
Qed.

(** ** Proof steps shared by the claims about completed runs *)

Ltac each_size H := destruct H as [<- | [<- | [<- | [<- | []]]]].

Ltac each_wave H := destruct H as [<- | [<- | [<- | []]]].

Ltac name_icons :=
  change (icon_name 16) with "icon-16.png" in *;
  change (icon_name 32) with "icon-32.png" in *;
  change (icon_name 48) with "icon-48.png" in *;
  change (icon_name 128) with "icon-128.png" in *.

Ltac on_rendering_path H :=
  rewrite ?(run_rendering_all_ok _ _ H), ?run_all_ok_result;
  cbn [fst snd fs stdout history]; name_icons.

Ltac on_placeholder_path H :=
  rewrite ?(run_unavailable_no_PIL _ _ H), ?run_no_PIL_result;
  cbn [fst snd fs stdout history]; name_icons.

Ltac read_file := simplify_map_eq; reflexivity.

Ltac by_evaluation := vm_compute; intuition congruence.

(** ** Rendering path *)

(** C1: for every size S of the list, the image saved as icon-S.png has
    exactly one rectangle, drawn from the origin
    (margin, (S - box_height) // 2) to (origin.x + box_width,
    origin.y + box_height) with margin = max(2, S // 8), box_width = S // 3,
    box_height = S // 2, fill (64,128,255,255) and outline (32,64,128,255). *)
Theorem speaker_box_geometry (w : World) (dir : gmap string File) (S : Z) :
  rendering w -> In S sizes ->
  let margin := Z.max 2 (S / 8) in
  let box_width := S / 3 in
  let box_height := S / 2 in
  let origin := (margin, (S - box_height) / 2) in
  exists img,
    fs (snd (run w dir)) !! icon_name S = Some (PngFile img) /\
    List.filter is_rectangle (drawn img) =
      [rectangle
         (fst origin, snd origin, fst origin + box_width, snd origin + box_height)
         (64, 128, 255, 255) (32, 64, 128, 255)].
Proof.
  intros Hw HS. each_size HS; on_rendering_path Hw;
    (eexists; split; [read_file | reflexivity]).
Qed.

Lemma speaker_box_geometry_witness :
  rendering all_ok /\ In 128 sizes /\
  exists img,
    fs (snd (run all_ok ∅)) !! icon_name 128 = Some (PngFile img) /\
    List.filter is_rectangle (drawn img) =
      [rectangle (16, 32, 58, 96) (64, 128, 255, 255) (32, 64, 128, 255)].
Proof.
  split; [intros c; reflexivity |].
  split; [simpl; tauto |].
  apply (speaker_box_geometry all_ok ∅ 128); [intros c; reflexivity | simpl; tauto].
Defined.

(** C2: for every size S of the list and every i of range(3), with
    wave_x = box_x + box_width + margin, center_y = S // 2 and
    radius = (i+1) * (S // 8), the image saved as icon-S.png contains the arc
    centred at (wave_x, center_y) with that radius, angles -30 to 30, colour
    (64,128,255,255) and width max(1, S // 32) if and only if
    wave_x + radius < S - margin. The draw call is made under the same
    condition, the image has no other arc, and the run returns without an
    exception whether or not an arc was skipped. *)
Theorem sound_wave_arcs (w : World) (dir : gmap string File) (S i : Z) :
  rendering w -> In S sizes -> In i [0; 1; 2] ->
  let margin := Z.max 2 (S / 8) in
  let wave_x := margin + S / 3 + margin in
  let center_y := S / 2 in
  let radius := fun j => (j + 1) * (S / 8) in
  let xy := fun j => (wave_x - radius j, center_y - radius j,
                      wave_x + radius j, center_y + radius j) in
  let wave := fun j => arc (xy j) (-30) 30 (64, 128, 255, 255) (Z.max 1 (S / 32)) in
  fst (run w dir) = Return tt /\
  arc_center (xy i) = (wave_x, center_y) /\
  arc_radius (xy i) = radius i /\
  (In (draw_arc S i) (history (snd (run w dir))) <-> wave_x + radius i < S - margin) /\
  exists img,
    fs (snd (run w dir)) !! icon_name S = Some (PngFile img) /\
    (In (wave i) (drawn img) <-> wave_x + radius i < S - margin) /\
    List.filter is_arc (drawn img) =
      flat_map (fun j => if wave_x + radius j <? S - margin then [wave j] else [])
               [0; 1; 2].
Proof.
  intros Hw HS Hi. each_size HS; each_wave Hi; on_rendering_path Hw;
    (split; [reflexivity |]); (split; [reflexivity |]); (split; [reflexivity |]);
    (split; [by_evaluation |]);
    (eexists; split; [read_file | split; [by_evaluation | reflexivity]]).
Qed.

Lemma sound_wave_arcs_witness :
  rendering all_ok /\ In 16 sizes /\ In 2 [0; 1; 2] /\
  fst (run all_ok ∅) = Return tt /\
  arc_center (3, 2, 15, 14) = (9, 8) /\
  arc_radius (3, 2, 15, 14) = 6 /\
  (In (draw_arc 16 2) (history (snd (run all_ok ∅))) <-> 9 + 6 < 16 - 2) /\
  exists img,
    fs (snd (run all_ok ∅)) !! icon_name 16 = Some (PngFile img) /\
    (In (arc (3, 2, 15, 14) (-30) 30 (64, 128, 255, 255) 1) (drawn img)
     <-> 9 + 6 < 16 - 2) /\
    List.filter is_arc (drawn img) =
      [arc (7, 6, 11, 10) (-30) 30 (64, 128, 255, 255) 1;
       arc (5, 4, 13, 12) (-30) 30 (64, 128, 255, 255) 1].
Proof.
  split; [intros c; reflexivity |].
  split; [simpl; tauto |].
  split; [simpl; tauto |].
  apply (sound_wave_arcs all_ok ∅ 16 2); [intros c; reflexivity | simpl; tauto ..].
Defined.

(** C4: at size 16 the radius for i = 2 is 6, and the third arc is drawn
    exactly when wave_x + 6 < 16 - margin, with wave_x = 9 and margin = 2 as
    the script computes them; the inequality is false there, so the call is
    not made and the saved image has no arc of radius 6. *)
Theorem third_arc_at_16 (w : World) (dir : gmap string File) :
  rendering w ->
  radius 16 2 = 6 /\ wave_x 16 = 9 /\ margin 16 = 2 /\
  (In (draw_arc 16 2) (history (snd (run w dir)))
   <-> wave_x 16 + 6 < 16 - margin 16) /\
  exists img,
    fs (snd (run w dir)) !! "icon-16.png" = Some (PngFile img) /\
    (In (arc (wave_x 16 - 6, center_y 16 - 6, wave_x 16 + 6, center_y 16 + 6)
            (-30) 30 (64, 128, 255, 255) (Z.max 1 (16 / 32)))
        (drawn img)
     <-> wave_x 16 + 6 < 16 - margin 16) /\
    ~ (wave_x 16 + 6 < 16 - margin 16) /\
    forall xy start stop fill width,
      In (arc xy start stop fill width) (drawn img) -> arc_radius xy <> 6.
Proof.
  intros Hw. on_rendering_path Hw.
  do 3 (split; [reflexivity |]). split; [by_evaluation |].
  eexists; split; [read_file |]. split; [by_evaluation |]. split; [by_evaluation |].
  intros xy start stop fill width Hin. simpl in Hin.
  destruct Hin as [Hd | [Hd | [Hd | []]]]; inversion Hd; subst; vm_compute; congruence.
Qed.

Lemma third_arc_at_16_witness :
  rendering all_ok /\
  (In (draw_arc 16 2) (history (snd (run all_ok ∅))) <-> wave_x 16 + 6 < 16 - margin 16).
Proof.
  split; [intros c; reflexivity |].
  apply (third_arc_at_16 all_ok ∅). intros c; reflexivity.
Defined.

(** C8: at size 16 the script computes margin 2, box width 5 and box height
    8; the only rectangle of the saved image is (2, 4)-(7, 12), and both its
    corners are pixels of the 16 x 16 canvas. *)
Theorem speaker_box_inside_canvas_16 (w : World) (dir : gmap string File) :
  rendering w ->
  margin 16 = 2 /\ box_width 16 = 5 /\ box_height 16 = 8 /\
  exists img,
    fs (snd (run w dir)) !! "icon-16.png" = Some (PngFile img) /\
    dims img = (16, 16) /\
    In (rectangle (2, 4, 7, 12) (64, 128, 255, 255) (32, 64, 128, 255)) (drawn img) /\
    forall xy fill outline,
      In (rectangle xy fill outline) (drawn img) ->
      xy = (box_x 16, box_y 16, box_x 16 + box_width 16, box_y 16 + box_height 16) /\
      inside_canvas img xy.
Proof.
  intros Hw. on_rendering_path Hw.
  do 3 (split; [reflexivity |]).
  eexists; split; [read_file |]. split; [reflexivity |]. split; [simpl; tauto |].
  intros xy fill outline Hin. simpl in Hin.
  destruct Hin as [Hd | [Hd | [Hd | []]]]; inversion Hd; subst.
  split; [reflexivity |]. simpl. lia.
Qed.

Lemma speaker_box_inside_canvas_16_witness :
  rendering all_ok /\ margin 16 = 2 /\ box_width 16 = 5 /\ box_height 16 = 8.
Proof.
  split; [intros c; reflexivity |].
  pose proof (speaker_box_inside_canvas_16 all_ok ∅ (fun c => eq_refl)) as H.
  tauto.
Defined.

(** C10: for every size S of the list the arcs for i = 0 and i = 1 satisfy
    wave_x + radius < S - margin and the arc for i = 2 does not; the saved
    image has exactly two arcs, those for i = 0 and i = 1, and [draw.arc] is
    called for them only. *)
Theorem two_arcs_per_icon (w : World) (dir : gmap string File) (S : Z) :
  rendering w -> In S sizes ->
  let wave := fun i =>
    arc (wave_x S - radius S i, center_y S - radius S i,
         wave_x S + radius S i, center_y S + radius S i)
        (-30) 30 (64, 128, 255, 255) (Z.max 1 (S / 32)) in
  wave_x S + radius S 0 < S - margin S /\
  wave_x S + radius S 1 < S - margin S /\
  ~ (wave_x S + radius S 2 < S - margin S) /\
  List.filter (fun c => match c with draw_arc _ _ => true | _ => false end)
    (render_calls S) = [draw_arc S 0; draw_arc S 1] /\
  (forall i, In (draw_arc S i) (history (snd (run w dir))) <-> i = 0 \/ i = 1) /\
  exists img,
    fs (snd (run w dir)) !! icon_name S = Some (PngFile img) /\
    List.filter is_arc (drawn img) = [wave 0; wave 1] /\
    length (List.filter is_arc (drawn img)) = 2%nat /\
    ~ In (wave 2) (drawn img).
Proof.
  intros Hw HS. each_size HS; on_rendering_path Hw;
    (do 3 (split; [by_evaluation |])); (split; [reflexivity |]);
    (split;
     [ intros i; split;
       [ intros Hin; simpl in Hin;
         repeat (destruct Hin as [Hin | Hin]; [inversion Hin; subst; tauto |]);
         destruct Hin
       | intros [-> | ->]; simpl; tauto ]
     | eexists; split; [read_file |];
       split; [reflexivity |]; split; [reflexivity | by_evaluation] ]).
Qed.

Lemma two_arcs_per_icon_witness :
  rendering all_ok /\ In 48 sizes /\
  exists img,
    fs (snd (run all_ok ∅)) !! icon_name 48 = Some (PngFile img) /\
    length (List.filter is_arc (drawn img)) = 2%nat.
Proof.
  split; [intros c; reflexivity |].
  split; [simpl; tauto |].
  destruct (two_arcs_per_icon all_ok ∅ 48 (fun c => eq_refl))
    as (_ & _ & _ & _ & _ & img & Hfile & _ & Hlen & _); [simpl; tauto |].
  exists img. split; [exact Hfile | exact Hlen].
Defined.

(** ** Placeholder path *)

Example nl_is_line_feed : nl = String "010"%char EmptyString.
Proof. reflexivity. Qed.

(** C3: when the import of PIL raises [ImportError] (and nothing else
    fails), the run returns and, for every size S of the list, icon-S.png is
    a text file whose content is exactly the line "# Placeholder icon SxS"
    followed by a line feed. *)
Theorem placeholder_files (w : World) (dir : gmap string File) :
  capability_unavailable w ->
  let d := fs (snd (run w dir)) in
  fst (run w dir) = Return tt /\
  (forall S, In S sizes ->
     d !! icon_name S =
       Some (TextFile ("# Placeholder icon " +:+ pretty S +:+ "x" +:+ pretty S +:+ nl))) /\
  d !! "icon-16.png" = Some (TextFile ("# Placeholder icon 16x16" +:+ nl)) /\
  d !! "icon-32.png" = Some (TextFile ("# Placeholder icon 32x32" +:+ nl)) /\
  d !! "icon-48.png" = Some (TextFile ("# Placeholder icon 48x48" +:+ nl)) /\
  d !! "icon-128.png" = Some (TextFile ("# Placeholder icon 128x128" +:+ nl)).
Proof.
  intros Hw. on_placeholder_path Hw.
  split; [reflexivity |].
  split; [intros S HS; each_size HS; name_icons; read_file |].
  repeat split; read_file.
Qed.

Lemma placeholder_files_witness :
  capability_unavailable no_PIL /\
  fs (snd (run no_PIL ∅)) !! "icon-128.png"
  = Some (TextFile ("# Placeholder icon 128x128" +:+ nl)).
Proof.
  split; [exact no_PIL_unavailable |].
  apply (placeholder_files no_PIL ∅ no_PIL_unavailable).
Defined.

(** ** Both paths *)

Lemma four_names_dom (a b c d : string) :
  ({[d]} ∪ ({[c]} ∪ ({[b]} ∪ ({[a]} ∪ ∅))) : gset string) = list_to_set [a; b; c; d].
Proof.
  cbn [list_to_set]. apply leibniz_equiv. intros x.
  rewrite !elem_of_union, !elem_of_singleton, elem_of_empty. tauto.
Qed.

(** On either path a run in which nothing fails creates exactly one file
    per size, named icon-S.png: an image on the rendering path, a text file
    on the placeholder path. *)
Lemma artifacts_on_each_path (w : World) (dir : gmap string File) :
  rendering w \/ capability_unavailable w ->
  let s' := snd (run w dir) in
  fst (run w dir) = Return tt /\
  artifacts_created (history s') = map icon_name sizes /\
  map icon_name sizes = ["icon-16.png"; "icon-32.png"; "icon-48.png"; "icon-128.png"] /\
  (forall S, In S sizes ->
     (rendering w -> exists img, fs s' !! icon_name S = Some (PngFile img)) /\
     (capability_unavailable w -> exists text, fs s' !! icon_name S = Some (TextFile text))) /\
  others_untouched dir s' /\
  (dir = ∅ -> dom (fs s') = list_to_set (map icon_name sizes)).
Proof.
  intros [Hw | Hw].
  - on_rendering_path Hw. do 3 (split; [reflexivity |]).
    split; [| split].
    + intros S HS. split.
      * intros _. each_size HS; name_icons; eexists; read_file.
      * intros [(e & He & _) _]. rewrite Hw in He. discriminate.
    + intros name Hname. rewrite icon_names in Hname. cbn [fs].
      rewrite !lookup_insert_ne by (intros <-; apply Hname; simpl; tauto).
      reflexivity.
    + intros ->. cbn [fs]. rewrite icon_names, !dom_insert_L, dom_empty_L.
      apply four_names_dom.
  - on_placeholder_path Hw. do 3 (split; [reflexivity |]).
    split; [| split].
    + intros S HS. split.
      * intros Hr. destruct Hw as [(e & He & _) _]. rewrite Hr in He. discriminate.
      * intros _. each_size HS; name_icons; eexists; read_file.
    + intros name Hname. rewrite icon_names in Hname. cbn [fs].
      rewrite !lookup_insert_ne by (intros <-; apply Hname; simpl; tauto).
      reflexivity.
    + intros ->. cbn [fs]. rewrite icon_names, !dom_insert_L, dom_empty_L.
      apply four_names_dom.
Qed.

(** C6: the size list is 16, 32, 48, 128 in ascending order and is walked in
    that order. On the rendering path standard output is the four lines
    "Created icon-S.png" in that order and nothing else; on the placeholder
    path it is the single fallback notice, printed before the first file is
    opened, with no line per file. *)
Theorem output_order (w : World) (dir : gmap string File) :
  let s' := snd (run w dir) in
  sizes = [16; 32; 48; 128] /\
  (rendering w ->
     stdout s' =
       "Created icon-16.png" +:+ nl +:+ "Created icon-32.png" +:+ nl +:+
       "Created icon-48.png" +:+ nl +:+ "Created icon-128.png" +:+ nl /\
     history s' = try_calls /\
     List.filter (fun c => negb (is_rendering_call c)) (history s') =
       [import_PIL; print "Created icon-16.png"; print "Created icon-32.png";
        print "Created icon-48.png"; print "Created icon-128.png"] /\
     artifacts_created (history s') =
       ["icon-16.png"; "icon-32.png"; "icon-48.png"; "icon-128.png"]) /\
  (capability_unavailable w ->
     stdout s' =
       "PIL not available, creating simple text files as placeholders" +:+ nl /\
     history s' =
       [import_PIL;
        print "PIL not available, creating simple text files as placeholders";
        open_w "icon-16.png"; f_write "icon-16.png";
        open_w "icon-32.png"; f_write "icon-32.png";
        open_w "icon-48.png"; f_write "icon-48.png";
        open_w "icon-128.png"; f_write "icon-128.png"]).
Proof.
  split; [reflexivity |]. split; intros Hw.
  - on_rendering_path Hw. repeat split; reflexivity.
  - on_placeholder_path Hw. repeat split; reflexivity.
Qed.

Lemma output_order_witness :
  rendering all_ok /\ capability_unavailable no_PIL /\
  stdout (snd (run all_ok ∅)) =
    "Created icon-16.png" +:+ nl +:+ "Created icon-32.png" +:+ nl +:+
    "Created icon-48.png" +:+ nl +:+ "Created icon-128.png" +:+ nl /\
  stdout (snd (run no_PIL ∅)) =
    "PIL not available, creating simple text files as placeholders" +:+ nl.
Proof.
  split; [intros c; reflexivity |].
  split; [exact no_PIL_unavailable |].
  split.
  - apply (output_order all_ok ∅). intros c; reflexivity.
  - apply (output_order no_PIL ∅). exact no_PIL_unavailable.
Defined.

(** C9: the script reads no input, so in rendering mode the images do not
    depend on the run: two runs, whatever the directory each starts from,
    save equal images under each name and print the same output, and a
    second run over the result of a first leaves the directory as it is. *)
Theorem rendering_deterministic (w1 w2 : World) (dir1 dir2 : gmap string File) :
  rendering w1 -> rendering w2 ->
  let first := snd (run w1 dir1) in
  let other := snd (run w2 dir2) in
  let again := snd (run w2 (fs first)) in
  (forall S, In S sizes ->
     exists img,
       fs first !! icon_name S = Some (PngFile img) /\
       fs other !! icon_name S = Some (PngFile img) /\
       fs again !! icon_name S = Some (PngFile img)) /\
  stdout first = stdout other /\
  history first = history other /\
  fs again = fs first.
Proof.
  intros H1 H2. on_rendering_path H1. on_rendering_path H2.
  split; [| split; [reflexivity | split; [reflexivity |]]].
  - intros S HS. each_size HS; name_icons;
      (eexists; split; [read_file | split; read_file]).
  - apply map_eq. intros name.
    destruct (decide (name = "icon-128.png")) as [-> | ?]; [simplify_map_eq; reflexivity |].
    destruct (decide (name = "icon-48.png")) as [-> | ?]; [simplify_map_eq; reflexivity |].
    destruct (decide (name = "icon-32.png")) as [-> | ?]; [simplify_map_eq; reflexivity |].
    destruct (decide (name = "icon-16.png")) as [-> | ?]; [simplify_map_eq; reflexivity |].
    rewrite !lookup_insert_ne by congruence. reflexivity.
Qed.

Lemma rendering_deterministic_witness :
  rendering all_ok /\
  fs (snd (run all_ok (fs (snd (run all_ok ∅))))) = fs (snd (run all_ok ∅)).
Proof.
  split; [intros c; reflexivity |].
  apply (rendering_deterministic all_ok all_ok ∅ ∅); intros c; reflexivity.
Defined.

(** ** Runs in an arbitrary environment *)

(** *** Where a call sequence stops *)

Lemma attempt_app (w : World) (cs1 cs2 : list Call) :
  attempt w (cs1 ++ cs2) =
  match attempt w cs1 with
  | (made, Some e) => (made, Some e)
  | (made, None) => let '(made', r) := attempt w cs2 in (made ++ made', r)
  end.
Proof.
  induction cs1 as [|c cs1 IH]; simpl.
  - destruct (attempt w cs2); reflexivity.
  - destruct (w c); [reflexivity |]. rewrite IH.
    destruct (attempt w cs1) as [made [e|]]; [reflexivity |].
    destruct (attempt w cs2); reflexivity.
Qed.

Lemma attempt_made_incl (w : World) (cs : list Call) (c : Call) :
  In c (fst (attempt w cs)) -> In c cs.
Proof.
  induction cs as [|c0 cs IH]; simpl; [tauto |].
  destruct (w c0).
  - simpl. tauto.
  - destruct (attempt w cs) as [made r]. simpl in *. tauto.
Qed.

(** A call that raises is the last one made, and its exception is the
    result. *)
Lemma attempt_stops_at_failure (w : World) (cs : list Call) (c : Call) (e : exn) :
  In c (fst (attempt w cs)) -> w c = Some e ->
  snd (attempt w cs) = Some e /\ exists pre, fst (attempt w cs) = pre ++ [c].
Proof.
  induction cs as [|c0 cs IH]; simpl; [tauto |].
  destruct (w c0) as [e0|] eqn:H0.
  - simpl. intros [<- | []] He. split; [congruence | exists []; reflexivity].
  - destruct (attempt w cs) as [made r]. simpl in *. intros [<- | Hin] He.
    + congruence.
    + destruct (IH Hin He) as [Hr [pre Hpre]].
      split; [exact Hr | exists (c0 :: pre); rewrite Hpre; reflexivity].
Qed.

(** A sequence that stopped with an exception stopped at a call that raises
    it. *)
Lemma attempt_failure_cause (w : World) (cs : list Call) (e : exn) :
  snd (attempt w cs) = Some e ->
  exists c, In c (fst (attempt w cs)) /\ w c = Some e.
Proof.
  induction cs as [|c0 cs IH]; simpl; [discriminate |].
  destruct (w c0) as [e0|] eqn:H0.
  - simpl. intros [= <-]. exists c0. split; [left; reflexivity | exact H0].
  - destruct (attempt w cs) as [made r]. simpl in *. intros Hr.
    destruct (IH Hr) as (c & Hin & Hc). exists c. split; [right; exact Hin | exact Hc].
Qed.

(** The first call of a sequence is always made. *)
Lemma attempt_first (w : World) (c : Call) (cs : list Call) :
  exists made, fst (attempt w (c :: cs)) = c :: made.
Proof.
  simpl. destruct (w c); [exists []; reflexivity |].
  destruct (attempt w cs) as [made r]. exists made; reflexivity.
Qed.

(** *** The calls of each statement *)

Lemma makes_calls_ret {A} (w : World) (a : A) : makes_calls w (ret a) [].
Proof.
  intros s. simpl. split; [symmetry; apply app_nil_r | exists a; reflexivity].
Qed.

Lemma makes_calls_perform (w : World) (c : Call) (effect : State -> State) :
  (forall s, history (effect s) = history s) ->
  makes_calls w (perform w c effect) [c].
Proof.
  intros Heff s. unfold perform. simpl. destruct (w c) as [e|]; simpl.
  - split; reflexivity.
  - rewrite Heff. simpl. split; [reflexivity | exists tt; reflexivity].
Qed.

Lemma makes_calls_bind {A B} (w : World) (m : M A) (k : A -> M B) cs1 cs2 :
  makes_calls w m cs1 -> (forall a, makes_calls w (k a) cs2) ->
  makes_calls w (bind m k) (cs1 ++ cs2).
Proof.
  intros Hm Hk s. unfold bind. rewrite attempt_app.
  destruct (Hm s) as [Hh Hr].
  destruct (m s) as [[a|e] s']; destruct (attempt w cs1) as [made [e1|]]; simpl in *.
  - discriminate.
  - destruct (Hk a s') as [Hh' Hr']. destruct (attempt w cs2) as [made' r']. simpl in *.
    rewrite Hh', Hh, app_assoc. split; [reflexivity | exact Hr'].
  - split; [exact Hh | congruence].
  - destruct Hr as [a Ha]. discriminate.
Qed.

Lemma makes_calls_for_each {A} (w : World) (xs : list A) (body : A -> M unit)
    (calls : A -> list Call) :
  (forall x, makes_calls w (body x) (calls x)) ->
  makes_calls w (for_each xs body) (flat_map calls xs).
Proof.
  intros H. induction xs as [|x xs IH]; simpl.
  - apply makes_calls_ret.
  - apply makes_calls_bind; [apply H | intros _; exact IH].
Qed.

Lemma makes_calls_for_fold {A B} (w : World) (xs : list A) (body : B -> A -> M B)
    (calls : A -> list Call) :
  (forall b x, makes_calls w (body b x) (calls x)) ->
  forall b, makes_calls w (for_fold xs body b) (flat_map calls xs).
Proof.
  intros H. induction xs as [|x xs IH]; intros b; simpl.
  - apply makes_calls_ret.
  - apply makes_calls_bind; [apply H | intros b'; apply IH].
Qed.

Lemma makes_calls_then_ret {A} (w : World) (c : Call) (a : A) :
  makes_calls w (bind (perform w c id) (fun _ => ret a)) [c].
Proof.
  change [c] with ([c] ++ []).
  apply makes_calls_bind; [apply makes_calls_perform; reflexivity |].
  intros _. apply makes_calls_ret.
Qed.

Lemma makes_calls_sound_wave (w : World) size img i :
  makes_calls w (sound_wave w size img i) (wave_calls size i).
Proof.
  unfold sound_wave, wave_calls, do_arc.
  destruct (_ <? _); [apply makes_calls_then_ret | apply makes_calls_ret].
Qed.

Lemma makes_calls_render (w : World) size :
  makes_calls w (render w size) (render_calls size).
Proof.
  unfold render, render_calls, new_image, new_draw, do_rectangle, save, py_print.
  change [Image_new size; ImageDraw_Draw size; draw_rectangle size]
    with ([Image_new size] ++ [ImageDraw_Draw size] ++ [draw_rectangle size]).
  rewrite <- !app_assoc.
  apply makes_calls_bind; [apply makes_calls_then_ret | intros img0].
  apply makes_calls_bind; [apply makes_calls_perform; reflexivity | intros _].
  apply makes_calls_bind; [apply makes_calls_then_ret | intros img1].
  apply makes_calls_bind.
  { apply makes_calls_for_fold. intros b i. apply makes_calls_sound_wave. }
  intros img2.
  change [img_save (icon_name size); print ("Created icon-" +:+ pretty size +:+ ".png")]
    with ([img_save (icon_name size)]
          ++ [print ("Created icon-" +:+ pretty size +:+ ".png")]).
  apply makes_calls_bind; [apply makes_calls_perform; reflexivity | intros _].
  apply makes_calls_perform; reflexivity.
Qed.

Lemma makes_calls_placeholder (w : World) size :
  makes_calls w (placeholder w size) (placeholder_calls size).
Proof.
  unfold placeholder, placeholder_calls.
  change [open_w (icon_name size); f_write (icon_name size)]
    with ([open_w (icon_name size)] ++ [f_write (icon_name size)]).
  apply makes_calls_bind; [apply makes_calls_perform; reflexivity | intros _].
  apply makes_calls_perform. intros s. unfold append_file.
  destruct (fs s !! icon_name size) as [[|]|]; reflexivity.
Qed.

Lemma makes_calls_try_block (w : World) : makes_calls w (try_block w) try_calls.
Proof.
  unfold try_block, try_calls.
  change (import_PIL :: flat_map render_calls sizes)
    with ([import_PIL] ++ flat_map render_calls sizes).
  apply makes_calls_bind; [apply makes_calls_perform; reflexivity | intros _].
  apply makes_calls_for_each. intros size. apply makes_calls_render.
Qed.

Lemma makes_calls_except_block (w : World) :
  makes_calls w (except_block w) except_calls.
Proof.
  unfold except_block, except_calls, py_print.
  change (print fallback_notice :: flat_map placeholder_calls [16; 32; 48; 128])
    with ([print fallback_notice] ++ flat_map placeholder_calls [16; 32; 48; 128]).
  apply makes_calls_bind; [apply makes_calls_perform; reflexivity | intros _].
  apply makes_calls_for_each. intros size. apply makes_calls_placeholder.
Qed.

(** The calls of a whole run: those of the try block up to its first
    failure, followed, when that failure is an [ImportError], by those of the
    handler up to its first failure. *)
Lemma run_calls (w : World) (dir : gmap string File) :
  let tried := attempt w try_calls in
  let handled := attempt w except_calls in
  match snd tried with
  | None =>
      fst (run w dir) = Return tt /\ history (snd (run w dir)) = fst tried
  | Some e =>
      if isinstance_ImportError e then
        history (snd (run w dir)) = fst tried ++ fst handled /\
        fst (run w dir) =
          match snd handled with Some e' => Raise e' | None => Return tt end
      else
        fst (run w dir) = Raise e /\ history (snd (run w dir)) = fst tried
  end.
Proof.
  cbv zeta. unfold run, main, try_except.
  pose proof (makes_calls_try_block w (start dir)) as [Hh Hr].
  pose proof (makes_calls_except_block w) as Hexc. unfold makes_calls in Hexc.
  change (history (start dir)) with (@nil Call) in Hh. rewrite app_nil_l in Hh.
  set (tried := attempt w try_calls) in *.
  set (handled := attempt w except_calls) in *.
  clearbody tried handled.
  destruct tried as [made r], handled as [made' r']. cbn [fst snd] in *.
  destruct (try_block w (start dir)) as [[[]|e] s1]; cbn [fst snd] in *;
    destruct r as [e1|].
  - discriminate.
  - split; [reflexivity | exact Hh].
  - injection Hr as <-. destruct (isinstance_ImportError e).
    + destruct (Hexc s1) as [Hh' Hr'].
      rewrite Hh', Hh. split; [reflexivity |].
      destruct r' as [e'|]; [exact Hr' |].
      destruct Hr' as [[] ->]. reflexivity.
    + split; [reflexivity | exact Hh].
  - destruct Hr as [a Ha]. discriminate.
Qed.

(** *** Which block a call belongs to *)

Lemma try_calls_in_try_block (c : Call) : In c try_calls -> in_try_block c = true.
Proof.
  assert (H : forallb in_try_block try_calls = true) by reflexivity.
  rewrite forallb_forall in H. apply H.
Qed.

Lemma except_calls_in_except_block (c : Call) :
  In c except_calls -> in_except_block c = true.
Proof.
  assert (H : forallb in_except_block except_calls = true) by reflexivity.
  rewrite forallb_forall in H. apply H.
Qed.

Lemma blocks_disjoint (c : Call) : in_try_block c = true -> in_except_block c = false.
Proof.
  destruct c; simpl; try reflexivity; try discriminate.
  destruct (String.eqb line fallback_notice); [discriminate | reflexivity].
Qed.

Lemma except_block_not_rendering (c : Call) :
  in_except_block c = true -> is_rendering_call c = false.
Proof. destruct c; simpl; congruence. Qed.

Lemma no_except_call_in_try (cs : list Call) :
  (forall c, In c cs -> in_try_block c = true) -> existsb in_except_block cs = false.
Proof.
  intros H. induction cs as [|c cs IH]; [reflexivity |]. simpl.
  rewrite (blocks_disjoint c) by (apply H; left; reflexivity).
  apply IH. intros c' Hc'. apply H. right; exact Hc'.
Qed.

(** *** Files are kept *)

Lemma preserves_ret {A} (P : State -> Prop) (a : A) : preserves P (ret a).
Proof. intros s Hs. exact Hs. Qed.

Lemma preserves_bind {A B} (P : State -> Prop) (m : M A) (k : A -> M B) :
  preserves P m -> (forall a, preserves P (k a)) -> preserves P (bind m k).
Proof.
  intros Hm Hk s Hs. unfold bind. specialize (Hm s Hs).
  destruct (m s) as [[a|e] s1]; [apply Hk |]; exact Hm.
Qed.

Lemma preserves_for_each {A} (P : State -> Prop) (xs : list A) (body : A -> M unit) :
  (forall x, preserves P (body x)) -> preserves P (for_each xs body).
Proof.
  intros H. induction xs as [|x xs IH]; simpl.
  - apply preserves_ret.
  - apply preserves_bind; [apply H | intros _; exact IH].
Qed.

Lemma preserves_for_fold {A B} (P : State -> Prop) (xs : list A) (body : B -> A -> M B) :
  (forall b x, preserves P (body b x)) -> forall b, preserves P (for_fold xs body b).
Proof.
  intros H. induction xs as [|x xs IH]; intros b; simpl.
  - apply preserves_ret.
  - apply preserves_bind; [apply H | intros b'; apply IH].
Qed.

Lemma preserves_try_except (P : State -> Prop) (body handler : M unit) catches :
  preserves P body -> preserves P handler ->
  preserves P (try_except body catches handler).
Proof.
  intros Hb Hh s Hs. unfold try_except. specialize (Hb s Hs).
  destruct (body s) as [[a|e] s1]; [exact Hb |].
  destruct (catches e); [apply Hh |]; exact Hb.
Qed.

Lemma grows_id : grows id.
Proof. intros s. split; reflexivity. Qed.

Lemma grows_emit line : grows (emit line).
Proof. intros s. split; reflexivity. Qed.

Lemma grows_set_file name f : grows (set_file name f).
Proof.
  intros s. split; [reflexivity |]. simpl. rewrite dom_insert_L.
  apply union_subseteq_r.
Qed.

Lemma grows_append_file name data : grows (append_file name data).
Proof.
  intros s. unfold append_file.
  destruct (fs s !! name) as [[|]|]; apply grows_set_file.
Qed.

Lemma creates_set_file (c : Call) name f :
  (forall name', c = img_save name' \/ c = open_w name' -> name' = name) ->
  creates c (set_file name f).
Proof.
  intros Hc name' s H. rewrite (Hc name' H). simpl.
  apply elem_of_dom. rewrite lookup_insert_eq. eexists; reflexivity.
Qed.

Lemma creates_nothing (c : Call) effect :
  (forall name, c <> img_save name /\ c <> open_w name) -> creates c effect.
Proof. intros Hc name s [H | H]; destruct (Hc name); contradiction. Qed.

Lemma files_kept_perform (w : World) dir (c : Call) (effect : State -> State) :
  grows effect -> creates c effect ->
  preserves (files_kept w dir) (perform w c effect).
Proof.
  intros Hg Hc s [Hdom Hfiles]. unfold perform.
  destruct (w c) as [e|] eqn:Hw; simpl.
  - split; [exact Hdom |].
    intros name [[Hin Hok] | [Hin Hok]]; apply in_app_or in Hin;
      (destruct Hin as [Hin | [Heq | []]]; [apply Hfiles; tauto | congruence]).
  - destruct (Hg (record_call c s)) as [Hh Hd]. simpl in Hd.
    split; [etransitivity; [exact Hdom | exact Hd] |].
    intros name H. rewrite Hh in H. simpl in H.
    destruct H as [[Hin Hok] | [Hin Hok]]; apply in_app_or in Hin;
      (destruct Hin as [Hin | [Heq | []]];
       [apply Hd, Hfiles; tauto | apply Hc; tauto]).
Qed.

Ltac silent_call :=
  apply files_kept_perform;
  [ first [apply grows_id | apply grows_emit]
  | apply creates_nothing; intros name; split; discriminate ].

Lemma files_kept_render (w : World) dir size :
  preserves (files_kept w dir) (render w size).
Proof.
  unfold render, new_image, new_draw, do_rectangle, save, py_print.
  apply preserves_bind.
  { apply preserves_bind; [silent_call | intros _; apply preserves_ret]. }
  intros img0. apply preserves_bind; [silent_call | intros _].
  apply preserves_bind.
  { apply preserves_bind; [silent_call | intros _; apply preserves_ret]. }
  intros img1. apply preserves_bind.
  { apply preserves_for_fold. intros b i. unfold sound_wave, do_arc.
    destruct (_ <? _); [| apply preserves_ret].
    apply preserves_bind; [silent_call | intros _; apply preserves_ret]. }
  intros img2. apply preserves_bind; [| intros _; silent_call].
  apply files_kept_perform; [apply grows_set_file |].
  apply creates_set_file. intros name' [H | H]; congruence.
Qed.

Lemma files_kept_placeholder (w : World) dir size :
  preserves (files_kept w dir) (placeholder w size).
Proof.
  unfold placeholder. apply preserves_bind; [| intros _].
  - apply files_kept_perform; [apply grows_set_file |].
    apply creates_set_file. intros name' [H | H]; congruence.
  - apply files_kept_perform; [apply grows_append_file |].
    apply creates_nothing. intros name; split; discriminate.
Qed.

Lemma files_kept_main (w : World) dir : preserves (files_kept w dir) (main w).
Proof.
  unfold main. apply preserves_try_except.
  - unfold try_block. apply preserves_bind; [silent_call | intros _].
    apply preserves_for_each. intros size. apply files_kept_render.
  - unfold except_block, py_print. apply preserves_bind; [silent_call | intros _].
    apply preserves_for_each. intros size. apply files_kept_placeholder.
Qed.

Lemma files_kept_run (w : World) dir : files_kept w dir (snd (run w dir)).
Proof.
  apply files_kept_main. split; [reflexivity |].
  intros name [[[] _] | [[] _]].
Qed.

Lemma attempt_first_fails (w : World) (c : Call) (cs : list Call) (e : exn) :
  w c = Some e -> attempt w (c :: cs) = ([c], Some e).
Proof. intros H. simpl. rewrite H. reflexivity. Qed.

Lemma forallb_of_all (p : Call -> bool) (cs : list Call) :
  (forall c, In c cs -> p c = true) -> forallb p cs = true.
Proof. intros H. apply forallb_forall. exact H. Qed.

(** ** Error handling *)

(** C7, as the code has it: the handler encloses the whole rendering loop,
    so the placeholder path is entered exactly when a call of the try block
    (the import of PIL or a later rendering call) raises an [ImportError].
    When the import itself raises it, no rendering call is made for any
    size. The calls of a run are calls of the try block followed by calls of
    the handler: once the placeholder path is entered the script does not
    return to rendering. An exception that is not an [ImportError], and any
    exception raised inside the handler, ends the run at the call that
    raised it, with that exception as the result. Files are never removed:
    what the directory held and every file whose creation succeeded are
    still there, whatever the outcome. *)
Theorem handler_scope (w : World) (dir : gmap string File) :
  let r := fst (run w dir) in
  let s' := snd (run w dir) in
  (placeholder_taken s' = true <->
   exists c e, In c (history s') /\ in_try_block c = true /\
               w c = Some e /\ isinstance_ImportError e = true) /\
  (forall e, w import_PIL = Some e -> isinstance_ImportError e = true ->
     placeholder_taken s' = true /\
     forall c, In c (history s') -> is_rendering_call c = false) /\
  (exists tried handled,
     history s' = tried ++ handled /\
     forallb in_try_block tried = true /\
     forallb in_except_block handled = true) /\
  (forall c e, In c (history s') -> w c = Some e ->
     isinstance_ImportError e = false \/ in_except_block c = true ->
     r = Raise e /\ exists pre, history s' = pre ++ [c]) /\
  files_kept w dir s'.
Proof.
  cbv zeta.
  pose proof (run_calls w dir) as Hrun. cbv zeta in Hrun.
  assert (HT : forall c, In c (fst (attempt w try_calls)) -> in_try_block c = true)
    by (intros c Hc; apply try_calls_in_try_block, (attempt_made_incl w), Hc).
  assert (HH : forall c, In c (fst (attempt w except_calls)) -> in_except_block c = true)
    by (intros c Hc; apply except_calls_in_except_block, (attempt_made_incl w), Hc).
  pose proof (attempt_stops_at_failure w try_calls) as Hstop.
  pose proof (attempt_stops_at_failure w except_calls) as Hstop'.
  pose proof (attempt_failure_cause w try_calls) as Hcause.
  pose proof (attempt_first w import_PIL (flat_map render_calls sizes)) as [m0 Hfirst].
  change (import_PIL :: flat_map render_calls sizes) with try_calls in Hfirst.
  pose proof (attempt_first w (print fallback_notice)
                (flat_map placeholder_calls [16; 32; 48; 128])) as [m1 Hfirst'].
  change (print fallback_notice :: flat_map placeholder_calls [16; 32; 48; 128])
    with except_calls in Hfirst'.
  assert (Himport : forall e, w import_PIL = Some e ->
                      fst (attempt w try_calls) = [import_PIL])
    by (intros e He; unfold try_calls; rewrite (attempt_first_fails w _ _ e He);
        reflexivity).
  set (tried := attempt w try_calls) in *.
  set (handled := attempt w except_calls) in *.
  clearbody tried handled.
  destruct tried as [T rt], handled as [H rh]. cbn [fst snd] in *.
  unfold placeholder_taken.
  split; [| split; [| split; [| split; [| apply files_kept_run]]]].
  - (* the placeholder path is entered iff a try-block call raised ImportError *)
    destruct rt as [e0|]; [destruct (isinstance_ImportError e0) eqn:Hcatch |].
    + destruct Hrun as [-> _]. split.
      * intros _. destruct (Hcause e0 eq_refl) as (c & Hc & Hw).
        exists c, e0. split; [apply in_or_app; left; exact Hc |].
        split; [apply HT, Hc | split; [exact Hw | exact Hcatch]].
      * intros _. rewrite existsb_app, Hfirst'. simpl. apply orb_true_r.
    + destruct Hrun as [_ ->]. split.
      * rewrite (no_except_call_in_try T HT). discriminate.
      * intros (c & e & Hc & _ & Hw & He).
        destruct (Hstop c e Hc Hw) as [Hr _]. congruence.
    + destruct Hrun as [_ ->]. split.
      * rewrite (no_except_call_in_try T HT). discriminate.
      * intros (c & e & Hc & _ & Hw & He).
        destruct (Hstop c e Hc Hw) as [Hr _]. discriminate.
  - (* the import itself fails *)
    intros e He Hcatch.
    assert (Hrt : rt = Some e).
    { apply (Hstop import_PIL e); [rewrite Hfirst; left; reflexivity | exact He]. }
    subst rt. rewrite Hcatch in Hrun. destruct Hrun as [-> _].
    split; [rewrite existsb_app, Hfirst'; simpl; apply orb_true_r |].
    intros c Hc. apply in_app_or in Hc. destruct Hc as [Hc | Hc].
    + rewrite (Himport e He) in Hc. destruct Hc as [<- | []]. reflexivity.
    + apply except_block_not_rendering, HH, Hc.
  - (* try-block calls first, handler calls after *)
    destruct rt as [e0|]; [destruct (isinstance_ImportError e0) |].
    + destruct Hrun as [-> _]. exists T, H.
      split; [reflexivity | split; apply forallb_of_all; assumption].
    + destruct Hrun as [_ ->]. exists T, [].
      split; [symmetry; apply app_nil_r | split; [apply forallb_of_all, HT | reflexivity]].
    + destruct Hrun as [_ ->]. exists T, [].
      split; [symmetry; apply app_nil_r | split; [apply forallb_of_all, HT | reflexivity]].
  - (* every other failure propagates *)
    intros c e Hc Hw Hother.
    destruct rt as [e0|]; [destruct (isinstance_ImportError e0) eqn:Hcatch |].
    + destruct Hrun as [Hh Hr]. rewrite Hh in Hc |- *. rewrite Hr.
      apply in_app_or in Hc. destruct Hc as [Hc | Hc].
      * destruct (Hstop c e Hc Hw) as [[= ->] _].
        destruct Hother as [Hno | Hexc]; [congruence |].
        rewrite (blocks_disjoint c (HT c Hc)) in Hexc. discriminate.
      * destruct (Hstop' c e Hc Hw) as [-> [pre ->]].
        split; [reflexivity | exists (T ++ pre); apply app_assoc].
    + destruct Hrun as [-> Hh]. rewrite Hh in Hc |- *.
      destruct (Hstop c e Hc Hw) as [[= ->] Hlast]. split; [reflexivity | exact Hlast].
    + destruct Hrun as [_ Hh]. rewrite Hh in Hc.
      destruct (Hstop c e Hc Hw) as [Hr _]. discriminate.
Qed.

Lemma handler_scope_witness :
  In (img_save "icon-16.png") (history (snd (run (read_only_dir None) ∅))) /\
  read_only_dir None (img_save "icon-16.png") = Some PermissionError /\
  fst (run (read_only_dir None) ∅) = Raise PermissionError /\
  exists pre,
    history (snd (run (read_only_dir None) ∅)) = pre ++ [img_save "icon-16.png"].
Proof.
  assert (Hin : In (img_save "icon-16.png")
                   (history (snd (run (read_only_dir None) ∅))))
    by (vm_compute; tauto).
  split; [exact Hin |]. split; [reflexivity |].
  destruct (handler_scope (read_only_dir None) ∅) as (_ & _ & _ & Hother & _).
  apply Hother; [exact Hin | reflexivity | left; reflexivity].
Defined.

(** C7 as stated fails: with PIL imported and the first icon saved, an
    [ImportError] raised by [img.save] for size 32 is caught by the same
    handler. The run prints the fallback notice after "Created icon-16.png",
    replaces the rendered icon-16.png by a placeholder and returns normally,
    although the import succeeded and the failure was not an import of the
    drawing library. *)
Lemma rendering_ImportError_is_caught :
  save_32_fails_import import_PIL = None /\
  save_32_fails_import (img_save "icon-32.png") = Some ImportError /\
  In (img_save "icon-32.png") (history (snd (run save_32_fails_import ∅))) /\
  placeholder_taken (snd (run save_32_fails_import ∅)) = true /\
  fst (run save_32_fails_import ∅) = Return tt /\
  stdout (snd (run save_32_fails_import ∅)) =
    "Created icon-16.png" +:+ nl +:+ fallback_notice +:+ nl /\
  fs (snd (run save_32_fails_import ∅)) !! "icon-16.png" =
    Some (TextFile ("# Placeholder icon 16x16" +:+ nl)) /\
  ~ fallback_only_when_import_fails save_32_fails_import ∅.
Proof.
  split; [reflexivity |]. split; [reflexivity |].
  split; [vm_compute; tauto |].
  split; [vm_compute; reflexivity |]. split; [vm_compute; reflexivity |].
  split; [vm_compute; reflexivity |]. split; [vm_compute; reflexivity |].
  intros [Honly _].
  destruct Honly as (e & He & _); [vm_compute; reflexivity |].
  discriminate He.
Qed.

(** A write error on the rendering path: the run ends with the exception at
    the first [img.save]; nothing is printed and no file is created. *)
Example save_error_propagates :
  run (read_only_dir None) ∅ =
  (Raise PermissionError,
   mkState ∅ ""
     [import_PIL; Image_new 16; ImageDraw_Draw 16; draw_rectangle 16;
      draw_arc 16 0; draw_arc 16 1; img_save "icon-16.png"]).
Proof. reflexivity. Qed.

(** A write error on the placeholder path is not handled either. *)
Example open_error_propagates :
  run (read_only_dir (Some ImportError)) ∅ =
  (Raise PermissionError,
   mkState ∅ (fallback_notice +:+ nl)
     [import_PIL; print fallback_notice; open_w "icon-16.png"]).
Proof. reflexivity. Qed.

(** No cleanup: when [f.write] fails, the file that [open] created stays
    behind, empty. *)
Example partial_file_stays :
  fst (run disk_full ∅) = Raise OSError /\
  fs (snd (run disk_full ∅)) !! "icon-16.png" = Some (TextFile "") /\
  history (snd (run disk_full ∅)) =
    [import_PIL; print fallback_notice; open_w "icon-16.png"; f_write "icon-16.png"].
Proof. repeat split; vm_compute; reflexivity. Qed.

(** An exception other than [ImportError] raised by the import is not
    handled: no placeholder is written. *)
Example other_import_error_propagates :
  run (fun c => match c with import_PIL => Some MemoryError | _ => None end) ∅ =
  (Raise MemoryError, mkState ∅ "" [import_PIL]).
Proof. reflexivity. Qed.

(** ** One artifact per size, for every run that completes *)

Lemma attempt_none (w : World) (cs : list Call) :
  snd (attempt w cs) = None ->
  fst (attempt w cs) = cs /\ forall c, In c cs -> w c = None.
Proof.
  induction cs as [|c0 cs IH]; simpl; [intros _; split; [reflexivity | tauto] |].
  destruct (w c0) as [e0|] eqn:H0; [discriminate |].
  destruct (attempt w cs) as [made r]. simpl in *. intros Hr.
  destruct (IH Hr) as [-> Hall]. split; [reflexivity |].
  intros c [<- | Hc]; [exact H0 | apply Hall, Hc].
Qed.

Lemma preserves_for_each_in {A} (P : State -> Prop) (xs : list A) (body : A -> M unit) :
  (forall x, In x xs -> preserves P (body x)) -> preserves P (for_each xs body).
Proof.
  induction xs as [|x xs IH]; intros H; simpl.
  - apply preserves_ret.
  - apply preserves_bind; [apply H; left; reflexivity | intros _].
    apply IH. intros y Hy. apply H. right; exact Hy.
Qed.

Lemma untouched_perform (w : World) dir (c : Call) (effect : State -> State) :
  (forall s name, ~ In name (map icon_name sizes) ->
     fs (effect s) !! name = fs s !! name) ->
  preserves (others_untouched dir) (perform w c effect).
Proof.
  intros Heff s Hs name Hname. unfold perform.
  destruct (w c); simpl; [apply Hs, Hname |].
  rewrite Heff by exact Hname. simpl. apply Hs, Hname.
Qed.

Lemma set_file_icon_only size f s name :
  In size sizes -> ~ In name (map icon_name sizes) ->
  fs (set_file (icon_name size) f s) !! name = fs s !! name.
Proof.
  intros Hsize Hname. simpl. apply lookup_insert_ne.
  intros <-. apply Hname, in_map, Hsize.
Qed.

Ltac untouched_call :=
  apply untouched_perform; intros s name Hname; reflexivity.

Lemma untouched_render (w : World) dir size :
  In size sizes -> preserves (others_untouched dir) (render w size).
Proof.
  intros Hsize. unfold render, new_image, new_draw, do_rectangle, save, py_print.
  apply preserves_bind.
  { apply preserves_bind; [untouched_call | intros _; apply preserves_ret]. }
  intros img0. apply preserves_bind; [untouched_call | intros _].
  apply preserves_bind.
  { apply preserves_bind; [untouched_call | intros _; apply preserves_ret]. }
  intros img1. apply preserves_bind.
  { apply preserves_for_fold. intros b i. unfold sound_wave, do_arc.
    destruct (_ <? _); [| apply preserves_ret].
    apply preserves_bind; [untouched_call | intros _; apply preserves_ret]. }
  intros img2. apply preserves_bind; [| intros _; untouched_call].
  apply untouched_perform. intros s name Hname.
  apply set_file_icon_only; assumption.
Qed.

Lemma untouched_placeholder (w : World) dir size :
  In size sizes -> preserves (others_untouched dir) (placeholder w size).
Proof.
  intros Hsize. unfold placeholder. apply preserves_bind; [| intros _].
  - apply untouched_perform. intros s name Hname.
    apply set_file_icon_only; assumption.
  - apply untouched_perform. intros s name Hname. unfold append_file.
    destruct (fs s !! icon_name size) as [[|]|];
      apply set_file_icon_only; assumption.
Qed.

Lemma untouched_run (w : World) dir : others_untouched dir (snd (run w dir)).
Proof.
  unfold run. assert (H : preserves (others_untouched dir) (main w)).
  { unfold main. apply preserves_try_except.
    - unfold try_block. apply preserves_bind; [untouched_call | intros _].
      apply preserves_for_each_in. intros size. apply untouched_render.
    - unfold except_block, py_print.
      apply preserves_bind; [untouched_call | intros _].
      apply preserves_for_each_in. intros size. apply untouched_placeholder. }
  apply H. intros name _. reflexivity.
Qed.

Lemma save_in_try_calls size : In size sizes -> In (img_save (icon_name size)) try_calls.
Proof. intros H. each_size H; vm_compute; tauto. Qed.

Lemma open_in_except_calls size :
  In size sizes -> In (open_w (icon_name size)) except_calls.
Proof. intros H. each_size H; vm_compute; tauto. Qed.

(** A run that returns has created every icon file. *)
Lemma completed_run_has_icons (w : World) dir size :
  fst (run w dir) = Return tt -> In size sizes ->
  icon_name size ∈ dom (fs (snd (run w dir))).
Proof.
  intros Hret Hsize.
  destruct (files_kept_run w dir) as [_ Hkept]. apply Hkept.
  pose proof (run_calls w dir) as Hrun. cbv zeta in Hrun.
  pose proof (attempt_none w try_calls) as Htry.
  pose proof (attempt_none w except_calls) as Hexc.
  destruct (attempt w try_calls) as [T [e0|]],
           (attempt w except_calls) as [H rh]; cbn [fst snd] in *.
  - destruct (isinstance_ImportError e0).
    + destruct Hrun as [Hh Hr]. destruct rh as [e'|]; [congruence |].
      destruct (Hexc eq_refl) as [-> Hok]. right. rewrite Hh.
      split; [apply in_or_app; right |]; [| apply Hok];
        apply open_in_except_calls, Hsize.
    + destruct Hrun as [Hr _]. congruence.
  - destruct Hrun as [_ Hh]. destruct (Htry eq_refl) as [-> Hok]. left. rewrite Hh.
    split; [| apply Hok]; apply save_in_try_calls, Hsize.
Qed.

(** C5: after a run that completes, whichever path it took, the directory
    holds a file icon-S.png for every size S, and no file under another name
    was created or changed: run in an empty directory, the script leaves
    exactly the four files icon-16.png, icon-32.png, icon-48.png and
    icon-128.png. On the rendering path each is created once and is an
    image; on the placeholder path each is created once and is a text file. *)
Theorem one_artifact_per_size (w : World) (dir : gmap string File) :
  fst (run w dir) = Return tt ->
  let s' := snd (run w dir) in
  map icon_name sizes = ["icon-16.png"; "icon-32.png"; "icon-48.png"; "icon-128.png"] /\
  (forall S, In S sizes -> exists f, fs s' !! icon_name S = Some f) /\
  others_untouched dir s' /\
  (dir = ∅ -> dom (fs s') = list_to_set (map icon_name sizes)) /\
  (rendering w ->
     artifacts_created (history s') = map icon_name sizes /\
     forall S, In S sizes -> exists img, fs s' !! icon_name S = Some (PngFile img)) /\
  (capability_unavailable w ->
     artifacts_created (history s') = map icon_name sizes /\
     forall S, In S sizes -> exists text, fs s' !! icon_name S = Some (TextFile text)).
Proof.
  intros Hret. cbv zeta.
  assert (Hicons : forall S, In S sizes ->
            exists f, fs (snd (run w dir)) !! icon_name S = Some f).
  { intros S HS. apply elem_of_dom. apply completed_run_has_icons; assumption. }
  split; [reflexivity |]. split; [exact Hicons |].
  split; [apply untouched_run |]. split; [| split].
  - intros ->. apply set_eq. intros name.
    rewrite elem_of_dom, elem_of_list_to_set, list_elem_of_In. split.
    + intros [f Hf].
      destruct (in_dec string_dec name (map icon_name sizes)) as [Hin | Hout];
        [exact Hin |].
      rewrite (untouched_run w ∅ name Hout), lookup_empty in Hf. discriminate.
    + intros Hin. apply in_map_iff in Hin. destruct Hin as (S & <- & HS).
      apply Hicons, HS.
  - intros Hw.
    destruct (artifacts_on_each_path w dir (or_introl Hw)) as (_ & Hcreated & _ & Hkind & _).
    split; [exact Hcreated |]. intros S HS. apply (Hkind S HS), Hw.
  - intros Hw.
    destruct (artifacts_on_each_path w dir (or_intror Hw)) as (_ & Hcreated & _ & Hkind & _).
    split; [exact Hcreated |]. intros S HS. apply (Hkind S HS), Hw.
Qed.

Lemma one_artifact_per_size_witness :
  fst (run save_32_fails_import ∅) = Return tt /\
  dom (fs (snd (run save_32_fails_import ∅))) = list_to_set (map icon_name sizes).
Proof.
  split; [vm_compute; reflexivity |].
  apply (one_artifact_per_size save_32_fails_import ∅);
    [vm_compute; reflexivity | reflexivity].
Defined.

(** * Beyond the four sizes: the loop bodies at any size *)

(** ** The rendering loop body in closed form *)

Lemma perform_succeeds (w : World) c effect s :
  w c = None -> perform w c effect s = (Return tt, effect (record_call c s)).
Proof. intros H. unfold perform. rewrite H. reflexivity. Qed.

Lemma sound_wave_succeeds (w : World) size img i s :
  rendering w ->
  sound_wave w size img i s =
  (Return (mkImage (mode img) (dims img) (color img) (drawn img ++ wave_arcs size i)),
   mkState (fs s) (stdout s) (history s ++ wave_calls size i)).
Proof.
  intros Hw. unfold sound_wave, wave_arcs, wave_calls, do_arc, bind.
  destruct (_ <? _).
  - rewrite perform_succeeds by apply Hw. reflexivity.
  - unfold ret. rewrite !app_nil_r. destruct img, s; reflexivity.
Qed.

Lemma render_succeeds (w : World) size s :
  rendering w ->
  render w size s =
  (Return tt,
   mkState
     (<[icon_name size :=
          PngFile (mkImage "RGBA" (size, size) (0, 0, 0, 0)
            (rectangle (box_x size, box_y size,
                        box_x size + box_width size, box_y size + box_height size)
                       (64, 128, 255, 255) (32, 64, 128, 255)
             :: flat_map (wave_arcs size) (range 3)))]> (fs s))
     (stdout s +:+ ("Created icon-" +:+ pretty size +:+ ".png") +:+ nl)
     (history s ++ render_calls size)).
Proof.
  intros Hw. unfold render, new_image, new_draw, do_rectangle, save, py_print.
  change (range 3) with [0; 1; 2]. cbn [for_fold flat_map].
  unfold bind, ret.
  repeat (first [ rewrite perform_succeeds by apply Hw
                | rewrite sound_wave_succeeds by exact Hw ];
          cbv beta iota).
  unfold render_calls. change (range 3) with [0; 1; 2]. cbn [flat_map].
  unfold emit, record_call, set_file, id. cbn [fs stdout history mode dims color drawn].
  rewrite !app_nil_r, <- !app_assoc. cbn [app]. reflexivity.
Qed.

Lemma in_wave_arcs (size i : Z) (d : DrawCall) :
  In d (wave_arcs size i) ->
  wave_x size + (i + 1) * (size / 8) < size - margin size /\
  d = arc (wave_x size - (i + 1) * (size / 8), center_y size - (i + 1) * (size / 8),
           wave_x size + (i + 1) * (size / 8), center_y size + (i + 1) * (size / 8))
          (-30) 30 (64, 128, 255, 255) (Z.max 1 (size / 32)).
Proof.
  unfold wave_arcs.
  destruct (Z.ltb_spec0 (wave_x size + (i + 1) * (size / 8)) (size - margin size))
    as [Hg | Hg]; [| intros []].
  intros [<- | []]. split; [exact Hg | reflexivity].
Qed.

(** The draw calls of a rendered icon: the rectangle, then the arcs of the
    iterations whose guard holds. *)
Lemma rendered_draw_calls (size : Z) (d : DrawCall) :
  In d (rectangle (box_x size, box_y size,
                   box_x size + box_width size, box_y size + box_height size)
                  (64, 128, 255, 255) (32, 64, 128, 255)
        :: flat_map (wave_arcs size) (range 3)) ->
  d = rectangle (box_x size, box_y size,
                 box_x size + box_width size, box_y size + box_height size)
                (64, 128, 255, 255) (32, 64, 128, 255) \/
  exists i, (i = 0 \/ i = 1 \/ i = 2) /\
    wave_x size + (i + 1) * (size / 8) < size - margin size /\
    d = arc (wave_x size - (i + 1) * (size / 8), center_y size - (i + 1) * (size / 8),
             wave_x size + (i + 1) * (size / 8), center_y size + (i + 1) * (size / 8))
            (-30) 30 (64, 128, 255, 255) (Z.max 1 (size / 32)).
Proof.
  change (range 3) with [0; 1; 2]. cbn [flat_map]. rewrite app_nil_r.
  intros [<- | Hin]; [left; reflexivity | right].
  apply in_app_or in Hin. destruct Hin as [Hin | Hin];
    [| apply in_app_or in Hin; destruct Hin as [Hin | Hin]];
    apply in_wave_arcs in Hin; destruct Hin as [Hg ->];
    eexists; (split; [| split; [exact Hg | reflexivity]]); tauto.
Qed.

(** ** Geometry at any size *)

Ltac unfold_geometry :=
  unfold wave_x, center_y, box_x, box_y, box_width, box_height, margin, radius in *.

(** Floor division by a constant, as linear constraints. *)
Ltac floor_arith := unfold_geometry; Z.div_mod_to_equations; lia.

(** X1: whatever the size, every arc the rendering loop body draws has its
    bounding box inside the size x size canvas: the guard of line 36 keeps
    the arcs off the borders. The speaker rectangle is inside the canvas
    exactly when the size is at least 4. *)
Theorem drawing_inside_canvas (w : World) (size : Z) (s : State) :
  rendering w ->
  exists img,
    fs (snd (render w size s)) !! icon_name size = Some (PngFile img) /\
    dims img = (size, size) /\
    (forall d, In d (drawn img) -> is_arc d = true -> inside_canvas img (box_of d)) /\
    (forall d, In d (drawn img) -> is_rectangle d = true ->
       (inside_canvas img (box_of d) <-> 4 <= size)).
Proof.
  intros Hw. rewrite (render_succeeds w size s Hw). cbn [snd fs].
  eexists. split; [apply lookup_insert_eq |]. split; [reflexivity |].
  cbn [drawn]. split; intros d Hd Hkind;
    apply rendered_draw_calls in Hd;
    destruct Hd as [-> | (i & Hi & Hg & ->)]; try discriminate Hkind;
    unfold inside_canvas; cbn [box_of dims].
  - destruct Hi as [-> | [-> | ->]]; floor_arith.
  - floor_arith.
Qed.

Lemma drawing_inside_canvas_witness :
  rendering all_ok /\
  exists img,
    fs (snd (render all_ok 24 (start ∅))) !! icon_name 24 = Some (PngFile img) /\
    dims img = (24, 24).
Proof.
  split; [intros c; reflexivity |].
  destruct (drawing_inside_canvas all_ok 24 (start ∅) (fun c => eq_refl))
    as (img & Hfile & Hdims & _).
  exists img. split; [exact Hfile | exact Hdims].
Defined.

(** X2: at any size the arcs of a rendered icon are the innermost ones, in
    order of increasing radius: the loop never draws an arc after skipping a
    smaller one. No arc at all is drawn below size 11; from size 16 on the
    first two arcs are always drawn, and when the size is also a multiple of
    8 the third never is. *)
Theorem innermost_arcs_drawn (w : World) (size : Z) (s : State) :
  rendering w ->
  let wave := fun i =>
    arc (wave_x size - radius size i, center_y size - radius size i,
         wave_x size + radius size i, center_y size + radius size i)
        (-30) 30 (64, 128, 255, 255) (Z.max 1 (size / 32)) in
  exists img n,
    fs (snd (render w size s)) !! icon_name size = Some (PngFile img) /\
    List.filter is_arc (drawn img) = firstn n [wave 0; wave 1; wave 2] /\
    (n <= 3)%nat /\
    (size <= 10 -> n = 0%nat) /\
    (16 <= size -> (2 <= n)%nat) /\
    (16 <= size -> size mod 8 = 0 -> n = 2%nat).
Proof.
  intros Hw. cbv zeta. rewrite (render_succeeds w size s Hw). cbn [snd fs drawn].
  change (range 3) with [0; 1; 2]. cbn [flat_map]. unfold wave_arcs, radius.
  destruct (Z.ltb_spec0 (wave_x size + (0 + 1) * (size / 8)) (size - margin size)) as [G0 | G0];
  destruct (Z.ltb_spec0 (wave_x size + (1 + 1) * (size / 8)) (size - margin size)) as [G1 | G1];
  destruct (Z.ltb_spec0 (wave_x size + (2 + 1) * (size / 8)) (size - margin size)) as [G2 | G2];
  first
    [ exfalso; floor_arith
    | eexists; exists 3%nat; split; [apply lookup_insert_eq |];
      split; [reflexivity |]; repeat split; intros; floor_arith
    | eexists; exists 2%nat; split; [apply lookup_insert_eq |];
      split; [reflexivity |]; repeat split; intros; floor_arith
    | eexists; exists 1%nat; split; [apply lookup_insert_eq |];
      split; [reflexivity |]; repeat split; intros; floor_arith
    | eexists; exists 0%nat; split; [apply lookup_insert_eq |];
      split; [reflexivity |]; repeat split; intros; floor_arith ].
Qed.

Lemma innermost_arcs_drawn_witness :
  rendering all_ok /\
  exists img n,
    fs (snd (render all_ok 15 (start ∅))) !! icon_name 15 = Some (PngFile img) /\
    List.filter is_arc (drawn img) =
      firstn n [arc (8, 6, 10, 8) (-30) 30 (64, 128, 255, 255) 1;
                arc (7, 5, 11, 9) (-30) 30 (64, 128, 255, 255) 1;
                arc (6, 4, 12, 10) (-30) 30 (64, 128, 255, 255) 1].
Proof.
  split; [intros c; reflexivity |].
  destruct (innermost_arcs_drawn all_ok 15 (start ∅) (fun c => eq_refl))
    as (img & n & Hfile & Harcs & _).
  exists img, n. split; [exact Hfile | exact Harcs].
Defined.

(** X3: the layout of a rendered icon at any size. The speaker box starts
    at least 2 pixels from the left border and is centred vertically to
    within one pixel. Every arc has a square bounding box whose centre lies
    at least 2 pixels to the right of the box and within its vertical span,
    a stroke at least 1 pixel wide, and a right edge that stays at least 3
    pixels from the right border. *)
Theorem icon_layout (w : World) (size : Z) (s : State) :
  rendering w ->
  exists img,
    fs (snd (render w size s)) !! icon_name size = Some (PngFile img) /\
    forall x0 y0 x1 y1 fill outline,
      In (rectangle (x0, y0, x1, y1) fill outline) (drawn img) ->
      2 <= x0 /\ 0 <= (size - y1) - y0 <= 1 /\
      forall xy start stop stroke width,
        In (arc xy start stop stroke width) (drawn img) ->
        let '(ax0, ay0, ax1, ay1) := xy in
        ax1 - ax0 = ay1 - ay0 /\
        x1 + 2 <= fst (arc_center xy) /\
        y0 <= snd (arc_center xy) <= y1 /\
        1 <= width /\
        ax1 <= size - 3.
Proof.
  intros Hw. rewrite (render_succeeds w size s Hw). cbn [snd fs].
  eexists. split; [apply lookup_insert_eq |]. cbn [drawn].
  intros x0 y0 x1 y1 fill outline Hrect.
  apply rendered_draw_calls in Hrect.
  destruct Hrect as [Heq | (i & _ & _ & [=])]. inversion Heq; subst; clear Heq.
  split; [floor_arith |]. split; [floor_arith |].
  intros xy start stop stroke width Harc.
  apply rendered_draw_calls in Harc.
  destruct Harc as [[=] | (i & Hi & Hg & Heq)]. inversion Heq; subst; clear Heq.
  unfold arc_center. cbn [fst snd].
  destruct Hi as [-> | [-> | ->]]; repeat split; floor_arith.
Qed.

Lemma icon_layout_witness :
  rendering all_ok /\
  exists img, fs (snd (render all_ok 100 (start ∅))) !! icon_name 100 = Some (PngFile img).
Proof.
  split; [intros c; reflexivity |].
  destruct (icon_layout all_ok 100 (start ∅) (fun c => eq_refl)) as (img & Hfile & _).
  exists img. exact Hfile.
Defined.

(** ** File names *)

Lemma string_length_app (a b : string) :
  String.length (a +:+ b) = (String.length a + String.length b)%nat.
Proof. induction a as [|c a IH]; simpl; [reflexivity | rewrite IH; reflexivity]. Qed.

Lemma string_app_inj_suffix (a b t : string) : a +:+ t = b +:+ t -> a = b.
Proof.
  revert b. induction a as [|c a IH]; intros [|d b] H.
  - reflexivity.
  - apply (f_equal String.length) in H. rewrite !string_length_app in H.
    simpl in H. lia.
  - apply (f_equal String.length) in H. rewrite !string_length_app in H.
    simpl in H. lia.
  - injection H as -> H. f_equal. apply IH, H.
Qed.

Lemma icon_name_inj (a b : Z) : icon_name a = icon_name b -> a = b.
Proof.
  unfold icon_name. intros H.
  apply (String.app_inj "icon-") in H.
  apply string_app_inj_suffix in H.
  apply (inj pretty) in H. exact H.
Qed.

Lemma file_is_perform (w : World) name v (c : Call) (effect : State -> State) :
  (forall s, fs (effect s) !! name = fs s !! name) ->
  preserves (file_is name v) (perform w c effect).
Proof.
  intros Heff s Hs. unfold perform, file_is in *.
  destruct (w c); simpl; [exact Hs |]. rewrite Heff. exact Hs.
Qed.

Ltac same_files := apply file_is_perform; intros s; reflexivity.

Lemma file_is_render (w : World) name v size :
  name <> icon_name size -> preserves (file_is name v) (render w size).
Proof.
  intros Hne. unfold render, new_image, new_draw, do_rectangle, save, py_print.
  apply preserves_bind.
  { apply preserves_bind; [same_files | intros _; apply preserves_ret]. }
  intros img0. apply preserves_bind; [same_files | intros _].
  apply preserves_bind.
  { apply preserves_bind; [same_files | intros _; apply preserves_ret]. }
  intros img1. apply preserves_bind.
  { apply preserves_for_fold. intros b i. unfold sound_wave, do_arc.
    destruct (_ <? _); [| apply preserves_ret].
    apply preserves_bind; [same_files | intros _; apply preserves_ret]. }
  intros img2. apply preserves_bind; [| intros _; same_files].
  apply file_is_perform. intros s. simpl. apply lookup_insert_ne. congruence.
Qed.

Lemma file_is_placeholder (w : World) name v size :
  name <> icon_name size -> preserves (file_is name v) (placeholder w size).
Proof.
  intros Hne. unfold placeholder. apply preserves_bind; [| intros _].
  - apply file_is_perform. intros s. simpl. apply lookup_insert_ne. congruence.
  - apply file_is_perform. intros s. unfold append_file.
    destruct (fs s !! icon_name size) as [[|]|]; simpl; apply lookup_insert_ne; congruence.
Qed.

(** X4: two different sizes never share a file name, so handling one size
    never creates, changes or removes the file of another: whatever the
    environment does (calls may fail at any point), the rendering body and
    the placeholder body for size [a] leave icon-b.png exactly as it was. *)
Theorem sizes_do_not_collide (w : World) (a b : Z) (s : State) :
  a <> b ->
  icon_name a <> icon_name b /\
  fs (snd (render w a s)) !! icon_name b = fs s !! icon_name b /\
  fs (snd (placeholder w a s)) !! icon_name b = fs s !! icon_name b.
Proof.
  intros Hab.
  assert (Hne : icon_name b <> icon_name a)
    by (intros H; apply Hab; symmetry; apply icon_name_inj, H).
  split; [congruence |]. split.
  - apply (file_is_render w (icon_name b) (fs s !! icon_name b) a Hne s). reflexivity.
  - apply (file_is_placeholder w (icon_name b) (fs s !! icon_name b) a Hne s). reflexivity.
Qed.

Lemma sizes_do_not_collide_witness :
  16 <> 160 /\ icon_name 16 <> icon_name 160.
Proof.
  split; [discriminate |].
  apply (sizes_do_not_collide all_ok 16 160 (start ∅)). discriminate.
Defined.

(** ** Runs in an arbitrary environment, continued *)

(** Before a call is made, every call that precedes it in the sequence was
    made and succeeded. *)
Lemma attempt_earlier_succeeded (w : World) (pre post : list Call) (c : Call) :
  ~ In c pre ->
  In c (fst (attempt w (pre ++ c :: post))) ->
  forall c', In c' pre -> In c' (fst (attempt w (pre ++ c :: post))) /\ w c' = None.
Proof.
  induction pre as [|p pre IH]; intros Hnot Hin c' Hc'; [destruct Hc' |].
  simpl in Hin |- *. destruct (w p) as [e|] eqn:Hp.
  - simpl in Hin. destruct Hin as [<- | []]. exfalso. apply Hnot. left; reflexivity.
  - destruct (attempt w (pre ++ c :: post)) as [made r] eqn:Hatt. simpl in *.
    destruct Hin as [<- | Hin]; [exfalso; apply Hnot; left; reflexivity |].
    destruct Hc' as [<- | Hc'].
    + split; [left; reflexivity | exact Hp].
    + destruct (IH (fun H => Hnot (or_intror H)) Hin c' Hc') as [Hmade Hok].
      split; [right; exact Hmade | exact Hok].
Qed.

(** The calls of a run: those of the try block up to its first failure,
    then calls of the handler only. *)
Lemma handler_trace (w : World) (dir : gmap string File) :
  exists handled,
    history (snd (run w dir)) = fst (attempt w try_calls) ++ handled /\
    forall c, In c handled -> in_except_block c = true.
Proof.
  pose proof (run_calls w dir) as Hrun. cbv zeta in Hrun.
  destruct (snd (attempt w try_calls)) as [e|];
    [destruct (isinstance_ImportError e) |].
  - destruct Hrun as [Hh _]. exists (fst (attempt w except_calls)).
    split; [exact Hh |]. intros c Hc.
    apply except_calls_in_except_block, (attempt_made_incl w), Hc.
  - destruct Hrun as [_ Hh]. exists []. rewrite app_nil_r. split; [exact Hh | intros c []].
  - destruct Hrun as [_ Hh]. exists []. rewrite app_nil_r. split; [exact Hh | intros c []].
Qed.

Lemma created_line_not_in_handler (S : Z) :
  in_except_block (print ("Created icon-" +:+ pretty S +:+ ".png")) = false.
Proof. reflexivity. Qed.

Lemma save_precedes_confirmation (S : Z) :
  In S sizes ->
  exists pre post,
    try_calls = pre ++ print ("Created icon-" +:+ pretty S +:+ ".png") :: post /\
    ~ In (print ("Created icon-" +:+ pretty S +:+ ".png")) pre /\
    In (img_save (icon_name S)) pre.
Proof.
  intros HS. each_size HS.
  - exists (firstn 7 try_calls), (skipn 8 try_calls).
    split; [reflexivity |]. split; [vm_compute; intuition congruence | vm_compute; tauto].
  - exists (firstn 14 try_calls), (skipn 15 try_calls).
    split; [reflexivity |]. split; [vm_compute; intuition congruence | vm_compute; tauto].
  - exists (firstn 21 try_calls), (skipn 22 try_calls).
    split; [reflexivity |]. split; [vm_compute; intuition congruence | vm_compute; tauto].
  - exists (firstn 28 try_calls), (skipn 29 try_calls).
    split; [reflexivity |]. split; [vm_compute; intuition congruence | vm_compute; tauto].
Qed.

(** X5: output never reports an icon that was not saved. In every run,
    whatever fails, the call printing "Created icon-S.png" is made only
    after [img.save] for icon-S.png was made and succeeded, and a file of
    that name is in the directory when the run ends. *)
Theorem confirmation_follows_save (w : World) (dir : gmap string File) (S : Z) :
  In S sizes ->
  In (print ("Created icon-" +:+ pretty S +:+ ".png")) (history (snd (run w dir))) ->
  In (img_save (icon_name S)) (history (snd (run w dir))) /\
  w (img_save (icon_name S)) = None /\
  is_Some (fs (snd (run w dir)) !! icon_name S).
Proof.
  intros HS Hprint.
  destruct (save_precedes_confirmation S HS) as (pre & post & Hsplit & Hfresh & Hsave).
  assert (Hmade : In (img_save (icon_name S)) (fst (attempt w try_calls)) /\
                  w (img_save (icon_name S)) = None).
  { rewrite Hsplit. apply attempt_earlier_succeeded; [exact Hfresh | | exact Hsave].
    rewrite <- Hsplit.
    destruct (handler_trace w dir) as (handled & Hh & Hexc).
    rewrite Hh in Hprint. apply in_app_or in Hprint. destruct Hprint as [H | H]; [exact H |].
    apply Hexc in H. rewrite created_line_not_in_handler in H. discriminate. }
  destruct Hmade as [Hmade Hok].
  assert (Hin : In (img_save (icon_name S)) (history (snd (run w dir)))).
  { destruct (handler_trace w dir) as (handled & -> & _). apply in_or_app. left. exact Hmade. }
  split; [exact Hin |]. split; [exact Hok |].
  apply elem_of_dom. apply (files_kept_run w dir). left. split; assumption.
Qed.

Lemma confirmation_follows_save_witness :
  In 32 sizes /\
  In (print ("Created icon-" +:+ pretty 32 +:+ ".png")) (history (snd (run all_ok ∅))) /\
  is_Some (fs (snd (run all_ok ∅)) !! icon_name 32).
Proof.
  assert (HS : In 32 sizes) by (simpl; tauto).
  assert (Hprint : In (print ("Created icon-" +:+ pretty 32 +:+ ".png"))
                      (history (snd (run all_ok ∅)))) by (vm_compute; tauto).
  split; [exact HS |]. split; [exact Hprint |].
  apply (confirmation_follows_save all_ok ∅ 32 HS Hprint).
Defined.

(** ** Running again *)

(** X6: a run in which nothing fails repairs whatever an earlier run left
    behind. Whatever happened in the first run (it may have aborted half
    way, or taken the other path), running the script on its directory
    gives the same directory as running it on the original one. *)
Theorem rerun_overwrites (w1 w2 : World) (dir : gmap string File) :
  rendering w2 \/ capability_unavailable w2 ->
  fs (snd (run w2 (fs (snd (run w1 dir))))) = fs (snd (run w2 dir)).
Proof.
  assert (Hrest : forall name,
            name <> "icon-128.png" -> name <> "icon-48.png" ->
            name <> "icon-32.png" -> name <> "icon-16.png" ->
            fs (snd (run w1 dir)) !! name = dir !! name).
  { intros name H128 H48 H32 H16. apply untouched_run. rewrite icon_names.
    simpl. intuition congruence. }
  intros [Hw | Hw]; [on_rendering_path Hw | on_placeholder_path Hw];
    apply map_eq; intros name;
    (destruct (decide (name = "icon-128.png")) as [-> | ?];
       [simplify_map_eq; reflexivity |]);
    (destruct (decide (name = "icon-48.png")) as [-> | ?];
       [simplify_map_eq; reflexivity |]);
    (destruct (decide (name = "icon-32.png")) as [-> | ?];
       [simplify_map_eq; reflexivity |]);
    (destruct (decide (name = "icon-16.png")) as [-> | ?];
       [simplify_map_eq; reflexivity |]);
    rewrite !lookup_insert_ne by congruence; apply Hrest; assumption.
Qed.

Lemma rerun_overwrites_witness :
  (rendering all_ok \/ capability_unavailable all_ok) /\
  fs (snd (run all_ok (fs (snd (run disk_full ∅))))) = fs (snd (run all_ok ∅)).
Proof.
  assert (H : rendering all_ok \/ capability_unavailable all_ok)
    by (left; intros c; reflexivity).
  split; [exact H |]. apply (rerun_overwrites disk_full all_ok ∅ H).
Defined.

(** ** Outcomes *)

Lemma attempt_failed_call (w : World) (cs : list Call) (e : exn) :
  snd (attempt w cs) = Some e ->
  exists pre c, fst (attempt w cs) = pre ++ [c] /\ w c = Some e /\ In c cs.
Proof.
  intros Hr. destruct (attempt_failure_cause w cs e Hr) as (c & Hc & Hw).
  destruct (attempt_stops_at_failure w cs c e Hc Hw) as [_ [pre Hpre]].
  exists pre, c. split; [exact Hpre |]. split; [exact Hw |].
  apply (attempt_made_incl w), Hc.
Qed.

(** X7: the fallback is complete. If the only exceptions the environment
    ever raises are [ImportError]s in calls of the try block, the run
    returns normally and every icon file exists when it ends. *)
Theorem fallback_always_completes (w : World) (dir : gmap string File) :
  (forall c e, w c = Some e ->
     in_try_block c = true /\ isinstance_ImportError e = true) ->
  fst (run w dir) = Return tt /\
  forall S, In S sizes -> is_Some (fs (snd (run w dir)) !! icon_name S).
Proof.
  intros Honly.
  assert (Hret : fst (run w dir) = Return tt).
  { pose proof (run_calls w dir) as Hrun. cbv zeta in Hrun.
    destruct (snd (attempt w try_calls)) as [e|] eqn:Htry; [| apply Hrun].
    destruct (attempt_failed_call w try_calls e Htry) as (_ & c & _ & Hc & _).
    destruct (Honly c e Hc) as [_ ->] in Hrun. destruct Hrun as [_ ->].
    destruct (snd (attempt w except_calls)) as [e'|] eqn:Hexc; [| reflexivity].
    destruct (attempt_failed_call w except_calls e' Hexc) as (_ & c' & _ & Hc' & Hin).
    destruct (Honly c' e' Hc') as [Htry' _].
    apply except_calls_in_except_block in Hin.
    rewrite (blocks_disjoint c' Htry') in Hin. discriminate. }
  split; [exact Hret |]. intros S HS.
  apply elem_of_dom, completed_run_has_icons; assumption.
Qed.

Lemma fallback_always_completes_witness :
  (forall c e, save_32_fails_import c = Some e ->
     in_try_block c = true /\ isinstance_ImportError e = true) /\
  fst (run save_32_fails_import ∅) = Return tt.
Proof.
  assert (H : forall c e, save_32_fails_import c = Some e ->
                in_try_block c = true /\ isinstance_ImportError e = true).
  { intros c e. destruct c; simpl; try discriminate.
    destruct (String.eqb name "icon-32.png"); [| discriminate].
    intros [= <-]. split; reflexivity. }
  split; [exact H |]. apply (fallback_always_completes save_32_fails_import ∅ H).
Defined.

(** X8: the script never fails by itself. When a run ends with an
    exception, that exception was raised by the last call the run made,
    and it is either not an [ImportError] or was raised inside the
    handler. *)
Theorem abort_comes_from_last_call (w : World) (dir : gmap string File) (e : exn) :
  fst (run w dir) = Raise e ->
  exists pre c,
    history (snd (run w dir)) = pre ++ [c] /\
    w c = Some e /\
    (isinstance_ImportError e = false \/ in_except_block c = true).
Proof.
  intros Hraise. pose proof (run_calls w dir) as Hrun. cbv zeta in Hrun.
  destruct (snd (attempt w try_calls)) as [e0|] eqn:Htry.
  - destruct (isinstance_ImportError e0) eqn:Hcatch.
    + destruct Hrun as [Hh Hr]. rewrite Hr in Hraise.
      destruct (snd (attempt w except_calls)) as [e'|] eqn:Hexc; [| discriminate].
      injection Hraise as ->.
      destruct (attempt_failed_call w except_calls e Hexc) as (pre & c & Hpre & Hc & Hin).
      exists (fst (attempt w try_calls) ++ pre), c.
      rewrite Hh, Hpre, app_assoc. split; [reflexivity |]. split; [exact Hc |].
      right. apply except_calls_in_except_block, Hin.
    + destruct Hrun as [Hr Hh]. rewrite Hr in Hraise. injection Hraise as ->.
      destruct (attempt_failed_call w try_calls e Htry) as (pre & c & Hpre & Hc & _).
      exists pre, c. rewrite Hh. split; [exact Hpre |]. split; [exact Hc |].
      left. exact Hcatch.
  - destruct Hrun as [Hr _]. rewrite Hr in Hraise. discriminate.
Qed.

Lemma abort_comes_from_last_call_witness :
  fst (run disk_full ∅) = Raise OSError /\
  exists pre c,
    history (snd (run disk_full ∅)) = pre ++ [c] /\ disk_full c = Some OSError.
Proof.
  assert (H : fst (run disk_full ∅) = Raise OSError) by (vm_compute; reflexivity).
  split; [exact H |].
  destruct (abort_comes_from_last_call disk_full ∅ OSError H) as (pre & c & Hh & Hc & _).
  exists pre, c. split; [exact Hh | exact Hc].
Defined.

(** ** Completed runs are consistent *)

Lemma eqM_sound_wave_on (w1 w2 : World) size img i :
  ((wave_x size + (i + 1) * (size / 8) <? size - margin size) = true ->
   w1 (draw_arc size i) = w2 (draw_arc size i)) ->
  eqM (sound_wave w1 size img i) (sound_wave w2 size img i).
Proof.
  intros H. unfold sound_wave, do_arc.
  destruct (_ <? _); [| intros s; reflexivity].
  apply eqM_bind; [apply eqM_perform, H; reflexivity |].
  intros _ s; reflexivity.
Qed.

Ltac in_render_calls :=
  unfold render_calls; rewrite !in_app_iff; simpl; tauto.

Lemma eqM_render_on (w1 w2 : World) size :
  (forall c, In c (render_calls size) -> w1 c = w2 c) ->
  eqM (render w1 size) (render w2 size).
Proof.
  intros H. unfold render, new_image, new_draw, do_rectangle, save, py_print.
  apply eqM_bind.
  { apply eqM_bind; [apply eqM_perform, H; in_render_calls | intros _ s; reflexivity]. }
  intros img0. apply eqM_bind; [apply eqM_perform, H; in_render_calls |].
  intros _. apply eqM_bind.
  { apply eqM_bind; [apply eqM_perform, H; in_render_calls | intros _ s; reflexivity]. }
  intros img1. apply eqM_bind.
  { apply eqM_for_fold. intros b i Hi. apply eqM_sound_wave_on. intros Hg.
    apply H. unfold render_calls. rewrite !in_app_iff. right; left.
    apply in_flat_map. exists i. split; [exact Hi |].
    unfold wave_calls. rewrite Hg. left; reflexivity. }
  intros img2. apply eqM_bind; [apply eqM_perform, H; in_render_calls |].
  intros _. apply eqM_perform, H; in_render_calls.
Qed.

Lemma eqM_try_block_on (w1 w2 : World) :
  (forall c, In c try_calls -> w1 c = w2 c) ->
  eqM (try_block w1) (try_block w2).
Proof.
  intros H. unfold try_block.
  apply eqM_bind; [apply eqM_perform, H; left; reflexivity |].
  intros _. apply eqM_for_each. intros size Hsize. apply eqM_render_on.
  intros c Hc. apply H. right. apply in_flat_map. exists size. split; assumption.
Qed.

(** When no call of the try block raises, the run is the rendering run. *)
Lemma run_try_block_succeeds (w : World) dir :
  (forall c, In c try_calls -> w c = None) -> run w dir = run all_ok dir.
Proof.
  intros H. unfold run, main, try_except.
  rewrite (eqM_try_block_on w all_ok) by (intros c Hc; rewrite (H c Hc); reflexivity).
  reflexivity.
Qed.

Lemma except_block_succeeds (w : World) s :
  (forall c, In c except_calls -> w c = None) ->
  except_block w s =
  (Return tt,
   mkState
     (<["icon-128.png" := TextFile ("# Placeholder icon 128x128" +:+ nl)]>
      (<["icon-48.png" := TextFile ("# Placeholder icon 48x48" +:+ nl)]>
      (<["icon-32.png" := TextFile ("# Placeholder icon 32x32" +:+ nl)]>
      (<["icon-16.png" := TextFile ("# Placeholder icon 16x16" +:+ nl)]> (fs s)))))
     (stdout s +:+ fallback_notice +:+ nl)
     (history s ++ except_calls)).
Proof.
  intros H. unfold except_block, py_print. cbn [for_each]. unfold bind.
  rewrite perform_succeeds by (apply H; left; reflexivity). cbv beta iota.
  repeat (rewrite placeholder_succeeds by (apply H; vm_compute; tauto); cbv beta iota).
  unfold ret, emit, record_call. cbn [fs stdout history].
  rewrite <- !app_assoc. reflexivity.
Qed.

Lemma placeholder_dir_lookup (d : gmap string File) (S : Z) :
  In S sizes ->
  (<["icon-128.png" := TextFile ("# Placeholder icon 128x128" +:+ nl)]>
   (<["icon-48.png" := TextFile ("# Placeholder icon 48x48" +:+ nl)]>
   (<["icon-32.png" := TextFile ("# Placeholder icon 32x32" +:+ nl)]>
   (<["icon-16.png" := TextFile ("# Placeholder icon 16x16" +:+ nl)]> d))))
  !! icon_name S =
  Some (TextFile ("# Placeholder icon " +:+ pretty S +:+ "x" +:+ pretty S +:+ nl)).
Proof. intros HS. each_size HS; name_icons; read_file. Qed.

(** X9: a completed run never leaves a mixture. Whatever the environment
    did, when the run returns either the placeholder path was not entered
    and all four icon files are images, or it was entered and all four are
    placeholder text files with their exact line, including the ones that
    had already been rendered before the fallback. *)
Theorem icons_never_mixed (w : World) (dir : gmap string File) :
  fst (run w dir) = Return tt ->
  let s' := snd (run w dir) in
  (placeholder_taken s' = false /\
   forall S, In S sizes -> exists img, fs s' !! icon_name S = Some (PngFile img)) \/
  (placeholder_taken s' = true /\
   forall S, In S sizes ->
     fs s' !! icon_name S =
       Some (TextFile ("# Placeholder icon " +:+ pretty S +:+ "x" +:+ pretty S +:+ nl))).
Proof.
  intros Hret. cbv zeta.
  pose proof (run_calls w dir) as Hrun. cbv zeta in Hrun.
  destruct (snd (attempt w try_calls)) as [e|] eqn:Htry.
  - right. destruct (isinstance_ImportError e) eqn:Hcatch.
    + destruct Hrun as [Hh Hr]. rewrite Hr in Hret.
      destruct (snd (attempt w except_calls)) as [e'|] eqn:Hexc; [discriminate |].
      destruct (attempt_none w except_calls Hexc) as [Hmade Hok].
      split.
      * unfold placeholder_taken. rewrite Hh, Hmade, existsb_app.
        apply orb_true_iff. right. reflexivity.
      * pose proof (makes_calls_try_block w (start dir)) as [_ Hraise].
        rewrite Htry in Hraise.
        unfold run, main, try_except in *.
        destruct (try_block w (start dir)) as [[[]|e1] s1]; [discriminate |].
        injection Hraise as ->. rewrite Hcatch.
        rewrite (except_block_succeeds w s1 Hok). cbn [snd fs].
        intros S HS. apply placeholder_dir_lookup, HS.
    + destruct Hrun as [Hr _]. rewrite Hr in Hret. discriminate.
  - left. destruct (attempt_none w try_calls Htry) as [_ Hok].
    rewrite (run_try_block_succeeds w dir Hok).
    split; [rewrite run_all_ok_result; reflexivity |].
    destruct (artifacts_on_each_path all_ok dir (or_introl (fun c => eq_refl)))
      as (_ & _ & _ & Hkind & _).
    intros S HS. apply (Hkind S HS). intros c; reflexivity.
Qed.

Lemma icons_never_mixed_witness :
  fst (run save_32_fails_import ∅) = Return tt /\
  placeholder_taken (snd (run save_32_fails_import ∅)) = true /\
  fs (snd (run save_32_fails_import ∅)) !! icon_name 16 =
    Some (TextFile ("# Placeholder icon " +:+ pretty 16 +:+ "x" +:+ pretty 16 +:+ nl)).
Proof.
  assert (H : fst (run save_32_fails_import ∅) = Return tt) by (vm_compute; reflexivity).
  split; [exact H |].
  destruct (icons_never_mixed save_32_fails_import ∅ H) as [[Hno _] | [Hyes Hfiles]].
  - vm_compute in Hno. discriminate Hno.
  - split; [exact Hyes |]. apply Hfiles. simpl; tauto.
Defined.

(** ** The placeholder body at any size *)

(** X10: writing a placeholder replaces whatever the file held. At any size
    and from any state, when [open] and [write] succeed the file
    icon-{size}.png holds exactly the placeholder line afterwards, whether
    it was absent, an image or some other text before; no other file and no
    output changes, and writing it a second time changes nothing. *)
Theorem placeholder_replaces_content (w : World) (size : Z) (s : State) :
  w (open_w (icon_name size)) = None ->
  w (f_write (icon_name size)) = None ->
  let s' := snd (placeholder w size s) in
  fst (placeholder w size s) = Return tt /\
  fs s' !! icon_name size =
    Some (TextFile ("# Placeholder icon " +:+ pretty size +:+ "x" +:+ pretty size +:+ nl)) /\
  (forall name, name <> icon_name size -> fs s' !! name = fs s !! name) /\
  stdout s' = stdout s /\
  fs (snd (placeholder w size s')) = fs s'.
Proof.
  intros Hopen Hwrite. cbv zeta.
  rewrite !(placeholder_succeeds w size) by assumption. cbn [fst snd fs stdout].
  split; [reflexivity |]. split; [apply lookup_insert_eq |].
  split; [intros name Hne; apply lookup_insert_ne; congruence |].
  split; [reflexivity | apply insert_insert_eq].
Qed.

Lemma placeholder_replaces_content_witness :
  no_PIL (open_w (icon_name 7)) = None /\
  no_PIL (f_write (icon_name 7)) = None /\
  fs (snd (placeholder no_PIL 7
             (mkState {[ "icon-7.png" := TextFile "an older, longer file" ]} "" [])))
    !! icon_name 7 =
  Some (TextFile ("# Placeholder icon " +:+ pretty 7 +:+ "x" +:+ pretty 7 +:+ nl)).
Proof.
  split; [reflexivity |]. split; [reflexivity |].
  apply (placeholder_replaces_content no_PIL 7); reflexivity.
Defined.
